(** * Electric-Car-Racing: the refresh path, the refresh ticker and the
      shared simulation store.

    The presentation layer ([MainWindow.signalPlotRefresh]) and the ticker
    ([PlotRefreshTimingThread]) are embedded from
    [visualization_functions.py].  The data store and the simulation worker
    live in [datastore.py] and [simulation_functions.py]; their models are
    written from the specification and are marked as such. *)

From Stdlib Require Import String DecimalString.
From Stdlib Require Import ZArith List Bool Lia QArith.
Import ListNotations.
Local Open Scope Z_scope.
Local Open Scope list_scope.

Set Implicit Arguments.

(** ** Shared vocabulary *)

(** The seven sample series of a record. *)
Inductive Series : Type :=
| time
| distance
| velocity
| track_max_velocity
| acceleration
| motor_power
| battery_power.

Definition all_series : list Series :=
  [time; distance; velocity; track_max_velocity; acceleration; motor_power;
   battery_power].

Definition Series_eq_dec (a b : Series) : {a = b} + {a <> b}.
Proof. decide equality. Defined.

(** The only error of the store. *)
Inductive Exn : Type :=
| OutOfRangeError.

Inductive result (A : Type) : Type :=
| Ok (a : A)
| Raise (e : Exn).

Arguments Ok {A} a.
Arguments Raise {A} e.

(** Python's [range(n)] for an integer [n]: empty when [n <= 0]. *)
Definition range (n : Z) : list Z := map Z.of_nat (seq 0 (Z.to_nat n)).

(** ** The store *)

Module Store.
Section Store.

Context {V : Type}.

(** Modelled from the spec: the [DataStore] class of [datastore.py] is not
    among the sources.  One append-only sequence per series and the index of
    the last record that is complete across all series. *)
Record DataStore : Type := mkStore {
  series : Series -> list V;
  simulation_index : Z
}.

(** Modelled from the spec: the store of a new run is empty, with index -1
    ("no data"). *)
Definition new_store : DataStore :=
  {| series := fun _ => []; simulation_index := -1 |}.

(** Modelled from the spec: [current_index()] returns [simulation_index] at
    the time of the call. *)
Definition current_index (st : DataStore) : Z := simulation_index st.

(** Modelled from the spec: [begin_record()] prepares the write at
    [simulation_index + 1]; it must not advance [simulation_index], and
    series never shrink, so the visible state is unchanged. *)
Definition begin_record (st : DataStore) : DataStore := st.

(** One column with a value put at position [index]: appended when the
    column ends just before [index], replacing the uncommitted tail when the
    column already has an entry there, untouched otherwise. *)
Definition put_at (index : Z) (v : V) (l : list V) : list V :=
  if Z.of_nat (length l) =? index then l ++ [v]
  else if Z.of_nat (length l) =? index + 1 then removelast l ++ [v]
  else l.

(** Modelled from the spec: [write_field(index, series_name, value)] writes
    one series' value for the in-progress index [simulation_index + 1].
    Committed entries are immutable and the columns are append-only, so a
    write at any other index leaves the store as it is. *)
Definition write_field (index : Z) (s : Series) (v : V) (st : DataStore)
  : DataStore :=
  if index =? simulation_index st + 1 then
    {| series := fun s' => if Series_eq_dec s' s
                           then put_at index v (series st s')
                           else series st s';
       simulation_index := simulation_index st |}
  else st.

(** Modelled from the spec: [commit_record()] advances [simulation_index] to
    the newly completed position.  That every series has been written is an
    obligation of the producer (see [record_ops]). *)
Definition commit_record (st : DataStore) : DataStore :=
  {| series := series st; simulation_index := simulation_index st + 1 |}.

(** Modelled from the spec: [read_field(index, series_name)] fails with
    [OutOfRangeError] if [index > simulation_index] or [index < 0].  A column
    shorter than the published index has no value to give; that read fails
    the same way (it cannot happen in a store filled by the worker, see
    [worker_reads]). *)
Definition read_field (index : Z) (s : Series) (st : DataStore) : result V :=
  if (index <? 0) || (simulation_index st <? index) then Raise OutOfRangeError
  else match nth_error (series st s) (Z.to_nat index) with
       | Some v => Ok v
       | None => Raise OutOfRangeError
       end.

(** The calls of the producer, as data, so that runs can be cut at any
    point between two calls. *)
Inductive Op : Type :=
| begin_record_op
| write_field_op (index : Z) (s : Series) (v : V)
| commit_record_op.

Definition exec_op (st : DataStore) (o : Op) : DataStore :=
  match o with
  | begin_record_op => begin_record st
  | write_field_op i s v => write_field i s v st
  | commit_record_op => commit_record st
  end.

Definition exec_ops (ops : list Op) (st : DataStore) : DataStore :=
  fold_left exec_op ops st.

Definition is_commit (o : Op) : bool :=
  match o with commit_record_op => true | _ => false end.

Definition commits (ops : list Op) : nat := length (filter is_commit ops).

(** Modelled from the spec: one step of the worker in [Running]
    ([simulation_functions.py] is not among the sources): [begin_record()],
    [write_field()] for every series, [commit_record()].  [index] is the
    position being written and [rec] the sample computed by the physics
    step. *)
Definition record_ops (index : Z) (rec : Series -> V) : list Op :=
  begin_record_op
    :: map (fun s => write_field_op index s (rec s)) all_series
    ++ [commit_record_op].

(** The calls of a worker that appends the records [recs] one after the
    other, the first of them at position [last + 1]. *)
Fixpoint worker_ops (last : Z) (recs : list (Series -> V)) : list Op :=
  match recs with
  | [] => []
  | rec :: recs' => record_ops (last + 1) rec ++ worker_ops (last + 1) recs'
  end.

(** A store as a reader can find it: the worker started on the empty store
    and was observed after [k] of its calls. *)
Definition observed (recs : list (Series -> V)) (k : nat) : DataStore :=
  exec_ops (firstn k (worker_ops (-1) recs)) new_store.

(** The store after the worker has committed all of [recs]. *)
Definition committed (recs : list (Series -> V)) : DataStore :=
  exec_ops (worker_ops (-1) recs) new_store.

(** A store whose columns all end at the published index. *)
Definition full (st : DataStore) : Prop :=
  forall s, Z.of_nat (length (series st s)) = simulation_index st + 1.

End Store.
Arguments DataStore V : clear implicits.
Arguments Op V : clear implicits.
End Store.

(** ** The main window: widgets and the refresh slot *)

Module Window.

(** The widgets [createUserDisplayControls] and [__init__] build. *)
Inductive Checkbox : Type :=
| checkboxTime
| checkboxDistance
| checkboxVelocity
| checkboxAcceleration
| checkboxMotorPower
| checkboxBatteryPower
| checkboxBatteryEnergy.

Inductive Spinbox : Type :=
| spinboxTime
| spinboxDistance
| spinboxVelocity
| spinboxAcceleration
| spinboxMotorPower
| spinboxBatteryPower
| spinboxBatteryEnergy.

Inductive PlotItem : Type :=
| p1 | p2 | p3 | p4 | p5 | p6 | p7.

Definition PlotItem_eq_dec (a b : PlotItem) : {a = b} + {a <> b}.
Proof. decide equality. Defined.

(** What a refresh does to the outside, in order: the calls into the store
    and to [isChecked] with what they returned, and the calls that draw. *)
Inductive Event (V : Type) : Type :=
| Call_get_simulation_index (r : Z)
| Call_get_at_index (s : Series) (index : Z) (r : result V)
| Call_isChecked (c : Checkbox) (r : bool)
| SetText (text : string)
| SetValue (sp : Spinbox) (v : V)
| Show (p : PlotItem)
| Hide (p : PlotItem)
| Plot (p : PlotItem) (x : list Z) (y : list V) (title : string)
       (pen : option string).

Arguments Call_get_simulation_index {V} r.
Arguments Call_get_at_index {V} s index r.
Arguments Call_isChecked {V} c r.
Arguments SetText {V} text.
Arguments SetValue {V} sp v.
Arguments Show {V} p.
Arguments Hide {V} p.
Arguments Plot {V} p x y title pen.

(** What the slot needs from [self]: the getters of [self.data_store] and the
    state of the check boxes.  A call may find the world changed (the
    simulation thread runs meanwhile), so each returns the world it leaves. *)
Class Self (V W : Type) : Type := {
  data_store_get_simulation_index : W -> W * Z;
  data_store_get_at_index : Series -> Z -> W -> W * result V;
  checkbox_isChecked : Checkbox -> W -> W * bool
}.

Section Slot.

Context {V W : Type} `{Self V W}.

(** Computations of the slot: the world is threaded, the events are
    collected, an exception ends the computation. *)
Definition M (A : Type) : Type := W -> W * list (Event V) * result A.

Definition ret {A} (a : A) : M A := fun w => (w, [], Ok a).

Definition bind {A B} (c : M A) (k : A -> M B) : M B :=
  fun w =>
    match c w with
    | (w1, l1, Ok a) =>
        match k a w1 with
        | (w2, l2, r) => (w2, l1 ++ l2, r)
        end
    | (w1, l1, Raise e) => (w1, l1, Raise e)
    end.

Definition emit (e : Event V) : M unit := fun w => (w, [e], Ok tt).

Notation "x <- c ;; k" := (bind c (fun x => k))
  (at level 61, c at next level, right associativity).
Notation "c ;; k" := (bind c (fun _ => k))
  (at level 61, right associativity).

Definition get_simulation_index : M Z :=
  fun w => let (w', r) := data_store_get_simulation_index w in
           (w', [Call_get_simulation_index r], Ok r).

Definition get_at_index (s : Series) (index : Z) : M V :=
  fun w => let (w', r) := data_store_get_at_index s index w in
           (w', [Call_get_at_index s index r], r).

Definition get_time_at_index := get_at_index time.
Definition get_distance_at_index := get_at_index distance.
Definition get_velocity_at_index := get_at_index velocity.
Definition get_track_max_velocity_at_index := get_at_index track_max_velocity.
Definition get_acceleration_at_index := get_at_index acceleration.
Definition get_motor_power_at_index := get_at_index motor_power.
Definition get_battery_power_at_index := get_at_index battery_power.

Definition isChecked (c : Checkbox) : M bool :=
  fun w => let (w', r) := checkbox_isChecked c w in
           (w', [Call_isChecked c r], Ok r).

(** ["{}".format(n)] for an integer. *)
Definition format (n : Z) : string :=
  NilZero.string_of_int (Z.to_int n).

Definition textboxSimulationIndex_setText (t : string) : M unit :=
  emit (SetText t).
Definition setValue (sp : Spinbox) (v : V) : M unit := emit (SetValue sp v).
Definition show (p : PlotItem) : M unit := emit (Show p).
Definition hide (p : PlotItem) : M unit := emit (Hide p).
Definition plot (p : PlotItem) (x : list Z) (y : list V)
  (title : string) (pen : option string) : M unit :=
  emit (Plot p x y title pen).

(** The lists the slot fills for the plots. *)
Record Lists : Type := mkLists {
  _time : list V;
  _distance : list V;
  _velocity : list V;
  _max_velocity : list V;
  _acceleration : list V;
  _motor_power : list V;
  _battery_power : list V;
  _battery_energy : list V
}.

Definition empty_lists : Lists := mkLists [] [] [] [] [] [] [] [].

(** The body of [for z in x]: six appends; the appends to [_battery_power]
    and [_battery_energy] are commented out in the source. *)
Definition append_at (z : Z) (ls : Lists) : M Lists :=
  t <- get_time_at_index z ;;
  d <- get_distance_at_index z ;;
  v <- get_velocity_at_index z ;;
  mv <- get_track_max_velocity_at_index z ;;
  a <- get_acceleration_at_index z ;;
  mp <- get_motor_power_at_index z ;;
  ret {| _time := _time ls ++ [t];
         _distance := _distance ls ++ [d];
         _velocity := _velocity ls ++ [v];
         _max_velocity := _max_velocity ls ++ [mv];
         _acceleration := _acceleration ls ++ [a];
         _motor_power := _motor_power ls ++ [mp];
         _battery_power := _battery_power ls;
         _battery_energy := _battery_energy ls |}.

Fixpoint for_z_in (x : list Z) (ls : Lists) : M Lists :=
  match x with
  | [] => ret ls
  | z :: x' => ls' <- append_at z ls ;; for_z_in x' ls'
  end.

(** [MainWindow.signalPlotRefresh]. *)
Definition signalPlotRefresh : M unit :=
  index <- get_simulation_index ;;
  let current_sim_index := index - 1 in
  textboxSimulationIndex_setText (format current_sim_index) ;;
  time <- get_time_at_index current_sim_index ;;
  setValue spinboxTime time ;;
  distance <- get_distance_at_index current_sim_index ;;
  setValue spinboxDistance distance ;;
  velocity <- get_velocity_at_index current_sim_index ;;
  setValue spinboxVelocity velocity ;;
  acceleration <- get_acceleration_at_index current_sim_index ;;
  setValue spinboxAcceleration acceleration ;;
  motor_power <- get_motor_power_at_index current_sim_index ;;
  setValue spinboxMotorPower motor_power ;;
  battery_power <- get_battery_power_at_index current_sim_index ;;
  setValue spinboxBatteryPower battery_power ;;
  let x := map (fun z => z + 1) (range current_sim_index) in
  ls <- for_z_in x empty_lists ;;
  plot p1 x (_time ls) "Time"%string None ;;
  c2 <- isChecked checkboxDistance ;;
  (if c2 then show p2 ;; plot p2 x (_distance ls) "Distance (m)"%string None
   else hide p2) ;;
  c3 <- isChecked checkboxVelocity ;;
  (if c3 then
     show p3 ;;
     plot p3 x (_max_velocity ls) "Max Velocity (m/sec)"%string (Some "r"%string) ;;
     plot p3 x (_velocity ls) "Velocity (m/sec)"%string None
   else hide p3) ;;
  c4 <- isChecked checkboxAcceleration ;;
  (if c4 then
     show p4 ;; plot p4 x (_acceleration ls) "Acceleration (m/sec^2)"%string None
   else hide p4) ;;
  c5 <- isChecked checkboxMotorPower ;;
  (if c5 then show p5 ;; plot p5 x (_motor_power ls) "Motor Power"%string None
   else hide p5) ;;
  c6 <- isChecked checkboxBatteryPower ;;
  (if c6 then show p6 ;; plot p6 x (_battery_power ls) "Battery Power"%string None
   else hide p6).

End Slot.

Arguments M V W : clear implicits.
Arguments Lists V : clear implicits.

(** Reading a finished cycle. *)
Definition log_of {V W A} (o : W * list (Event V) * result A)
  : list (Event V) := snd (fst o).

Definition result_of {V W A} (o : W * list (Event V) * result A)
  : result A := snd o.

(** The indices of the reads of a cycle, in order. *)
Fixpoint read_indices {V} (l : list (Event V)) : list Z :=
  match l with
  | [] => []
  | Call_get_at_index _ i _ :: l' => i :: read_indices l'
  | _ :: l' => read_indices l'
  end.

(** How often a cycle asked the store for its index. *)
Fixpoint index_queries {V} (l : list (Event V)) : nat :=
  match l with
  | [] => O
  | Call_get_simulation_index _ :: l' => S (index_queries l')
  | _ :: l' => index_queries l'
  end.

(** The [(x, y)] arguments of the calls to [p.plot], in order. *)
Fixpoint plotted {V} (p : PlotItem) (l : list (Event V))
  : list (list Z * list V) :=
  match l with
  | [] => []
  | Plot q x y _ _ :: l' =>
      if PlotItem_eq_dec q p then (x, y) :: plotted p l' else plotted p l'
  | _ :: l' => plotted p l'
  end.

(** *** Statements about the computations of the slot

    [I] is what is known of the world.  [hoare I c P R E]: started in a
    world of [I], [c] leaves one, every event of [c] satisfies [P], a
    returned value satisfies [R] and a raised exception [E].
    [post I c Q]: the log and the result of [c] satisfy [Q]. *)

Definition world_of {V W A} (o : W * list (Event V) * result A) : W :=
  fst (fst o).

Definition outcome {A} (R : A -> Prop) (E : Exn -> Prop) (r : result A)
  : Prop :=
  match r with Ok a => R a | Raise e => E e end.

Definition hoare {V W A} (I : W -> Prop) (c : M V W A)
  (P : Event V -> Prop) (R : A -> Prop) (E : Exn -> Prop) : Prop :=
  forall w, I w ->
    I (world_of (c w)) /\ Forall P (log_of (c w)) /\
    outcome R E (result_of (c w)).

Definition post {V W A} (I : W -> Prop) (c : M V W A)
  (Q : list (Event V) -> result A -> Prop) : Prop :=
  forall w, I w -> Q (log_of (c w)) (result_of (c w)).

(** An event a cycle may do once it holds the snapshot [snapshot] of the
    index: no further query of the index, and reads below the snapshot
    only. *)
Definition bounded {V} (snapshot : Z) (e : Event V) : Prop :=
  match e with
  | Call_get_simulation_index _ => False
  | Call_get_at_index _ i _ => i < snapshot
  | _ => True
  end.

(** An event that is neither the test of the Battery Power box nor a call
    to [p6.plot]. *)
Definition neutral {V} (e : Event V) : Prop :=
  match e with
  | Call_isChecked checkboxBatteryPower _ => False
  | Plot p6 _ _ _ _ => False
  | _ => True
  end.

(** A log in which the test of the Battery Power box, if it was found
    checked, goes with exactly one call to [p6.plot], with [x] and no
    [y]. *)
Definition battery_plot_empty {V} (x : list Z) (l : list (Event V)) : Prop :=
  In (Call_isChecked checkboxBatteryPower true) l ->
  plotted p6 l = [(x, [])].

End Window.

(** ** The window over the store of the specification *)

Module SpecWindow.
Import Window.

(** What [self] holds for the slot: the store and the check boxes' state. *)
Record World (V : Type) : Type := mkWorld {
  data_store : Store.DataStore V;
  checked : Checkbox -> bool
}.

(** Modelled from the spec: the getters of [datastore.py] are not among the
    sources.  [get_simulation_index()] is the store's [current_index()] and
    each [get_<series>_at_index(i)] is [read_field(i, <series>)]; a read
    leaves the store as it is. *)
#[export] Instance World_Self (V : Type) : Self V (World V) := {
  data_store_get_simulation_index w :=
    (w, Store.current_index (data_store w));
  data_store_get_at_index s index w :=
    (w, Store.read_field index s (data_store w));
  checkbox_isChecked c w := (w, checked w c)
}.

(** One refresh cycle over a store that stands still meanwhile. *)
Definition refresh {V} (st : Store.DataStore V) (boxes : Checkbox -> bool)
  : World V * list (Event V) * result unit :=
  signalPlotRefresh (mkWorld st boxes).


(** The records of the scenario: record [i] has time [i]; [other] gives the
    samples of the other series. *)
Definition scenario_record (other : Z -> Series -> Z) (i : Z) : Series -> Z :=
  fun s => match s with time => i | _ => other i s end.

Definition scenario_records (other : Z -> Series -> Z) (n : nat)
  : list (Series -> Z) :=
  map (fun i => scenario_record other (Z.of_nat i)) (seq 0 n).


(** The values of series [s] at the positions [x], as the store gives
    them. *)
Definition column {V} (st : Store.DataStore V) (s : Series) (x : list Z)
  : list V :=
  flat_map (fun z => match Store.read_field z s st with
                     | Ok v => [v]
                     | Raise _ => []
                     end) x.

(** A position a cycle may read: from 0 to [current_index() - 1]. *)
Definition inside {V} (st : Store.DataStore V) (i : Z) : Prop :=
  0 <= i <= Store.current_index st - 1.

(** The events of a cycle up to its loop: reads inside the range. *)
Definition inner {V} (st : Store.DataStore V) (e : Event V) : Prop :=
  match e with
  | Call_get_at_index _ i _ => inside st i
  | Plot _ _ _ _ _ => False
  | _ => True
  end.

(** The events of a cycle after [p1.plot]: no read, no plot on [p1]. *)
Definition outer {V} (e : Event V) : Prop :=
  match e with
  | Call_get_at_index _ _ _ => False
  | Plot p1 _ _ _ _ => False
  | _ => True
  end.

(** A cycle that completes, reads inside the range only, and calls
    [p1.plot] once, with [x] and [y]. *)
Definition completes {V} (st : Store.DataStore V) (x : list Z) (y : list V)
  (l : list (Event V)) (r : result unit) : Prop :=
  r = Ok tt /\ Forall (inside st) (read_indices l) /\
  plotted p1 l = [(x, y)].

End SpecWindow.

(** ** The refresh ticker *)

Module Ticker.

(** [PlotRefreshTimingThread]: its only field of its own is [exiting]. *)
Record PlotRefreshTimingThread : Type := mkThread {
  exiting : bool
}.

Definition __init__ : PlotRefreshTimingThread := {| exiting := false |}.

(** What the thread does to the outside.  [plotRefreshTimingSignal] is
    declared [pyqtSignal()], without argument types, so its emission has no
    argument. *)
Inductive Action : Type :=
| time_sleep (seconds : Q)
| plotRefreshTimingSignal_emit.

(** The condition of the loop of [run]: [while True]. *)
Definition while_condition (self : PlotRefreshTimingThread) : bool := true.

(** The body of the loop of [run]. *)
Definition loop_body (self : PlotRefreshTimingThread) : list Action :=
  [time_sleep 0.25; plotRefreshTimingSignal_emit].

(** [run], followed for at most [fuel] iterations of its loop: the actions
    done, and whether [run] has returned. *)
Fixpoint run (fuel : nat) (self : PlotRefreshTimingThread)
  : list Action * bool :=
  match fuel with
  | O => ([], false)
  | S fuel' =>
      if while_condition self then
        let (acts, returned) := run fuel' self in
        (loop_body self ++ acts, returned)
      else ([], true)
  end.

(** [QThread.wait()]: returns once [run] has returned; [None] while it has
    not, watching the thread for [fuel] iterations. *)
Definition wait (fuel : nat) (self : PlotRefreshTimingThread) : option unit :=
  if snd (run fuel self) then Some tt else None.

(** [__del__]: sets [exiting] and waits for [run]. *)
Definition __del__ (fuel : nat) (self : PlotRefreshTimingThread)
  : option PlotRefreshTimingThread :=
  let self' := {| exiting := true |} in
  match wait fuel self' with
  | Some _ => Some self'
  | None => None
  end.

Definition ticks (acts : list Action) : nat :=
  length (filter (fun a => match a with
                           | plotRefreshTimingSignal_emit => true
                           | _ => false
                           end) acts).

(** The requested suspension in milliseconds. *)
Definition milliseconds (seconds : Q) : Q := (seconds * 1000)%Q.

Section Delivery.

Context {V W : Type} `{Window.Self V W}.

(** [plotRefreshTimingSignal.connect(self.signalPlotRefresh)]: every
    emission runs the slot, which takes no argument.  The result is the log
    of each cycle, in order; the world a cycle leaves is the next one's. *)
Fixpoint deliver (acts : list Action) (w : W)
  : list (list (Window.Event V)) :=
  match acts with
  | [] => []
  | time_sleep _ :: acts' => deliver acts' w
  | plotRefreshTimingSignal_emit :: acts' =>
      match Window.signalPlotRefresh w with
      | (w', l, _) => l :: deliver acts' w'
      end
  end.

End Delivery.

End Ticker.

(** ** The worker's control surface *)

Module Worker.

(** Modelled from the spec: the [SimulationThread] class of
    [simulation_functions.py] is not among the sources. *)
Inductive State : Type :=
| Idle
| Running
| Paused
| Stopped.

Inductive Command : Type :=
| start
| pause
| stop.

(** Modelled from the spec: [Idle -> Running] on start, [Running -> Paused]
    on pause, resumable to [Running]; stop leads to [Stopped] from any state
    and [Stopped] is terminal; a command without a transition is a no-op. *)
Definition control (c : Command) (s : State) : State :=
  match c, s with
  | _, Stopped => Stopped
  | stop, _ => Stopped
  | start, Idle => Running
  | start, Paused => Running
  | start, Running => Running
  | pause, Running => Paused
  | pause, Idle => Idle
  | pause, Paused => Paused
  end.

(** The two buttons [MainWindow.__init__] connects to the worker. *)
Inductive Button : Type :=
| buttonRun
| buttonStop.

(** Modelled from the spec: [thread_start_calculating] and
    [thread_stop_calculating], the methods the buttons are connected to, are
    the worker's [start()] and [stop()]. *)
Definition thread_start_calculating : State -> State := control start.
Definition thread_stop_calculating : State -> State := control stop.

(** [buttonRun.clicked.connect(self.simulationThread.thread_start_calculating)]
    and [buttonStop.clicked.connect(self.simulationThread.thread_stop_calculating)]. *)
Definition clicked (b : Button) : State -> State :=
  match b with
  | buttonRun => thread_start_calculating
  | buttonStop => thread_stop_calculating
  end.

End Worker.

(** ** What a refresh cycle leaves on the window *)

Module Cycle.
Import Window.

Definition Spinbox_eq_dec (a b : Spinbox) : {a = b} + {a <> b}.
Proof. decide equality. Defined.

(** The series a spin box shows and the check box that rules a plot, as
    [signalPlotRefresh] pairs them. *)
Definition series_of_spinbox (sp : Spinbox) : option Series :=
  match sp with
  | spinboxTime => Some time
  | spinboxDistance => Some distance
  | spinboxVelocity => Some velocity
  | spinboxAcceleration => Some acceleration
  | spinboxMotorPower => Some motor_power
  | spinboxBatteryPower => Some battery_power
  | spinboxBatteryEnergy => None
  end.

Definition checkbox_of_plot (p : PlotItem) : option Checkbox :=
  match p with
  | p2 => Some checkboxDistance
  | p3 => Some checkboxVelocity
  | p4 => Some checkboxAcceleration
  | p5 => Some checkboxMotorPower
  | p6 => Some checkboxBatteryPower
  | p1 | p7 => None
  end.

(** The series whose values a plot draws with one curve. *)
Definition series_of_plot (p : PlotItem) : option Series :=
  match p with
  | p1 => Some time
  | p2 => Some distance
  | p4 => Some acceleration
  | p5 => Some motor_power
  | p3 | p6 | p7 => None
  end.

(** The series read for the spin boxes and those read in each iteration of
    the loop, in the order of the reads. *)
Definition spin_series : list Series :=
  [time; distance; velocity; acceleration; motor_power; battery_power].

Definition loop_series : list Series :=
  [time; distance; velocity; track_max_velocity; acceleration; motor_power].

Section Cycle.

Context {V : Type}.

(** The reads of a log: series and index, in order. *)
Definition reads (l : list (Event V)) : list (Series * Z) :=
  flat_map (fun e => match e with
                     | Call_get_at_index s i _ => [(s, i)]
                     | _ => []
                     end) l.

(** The values the store returned for the reads of series [s], in order. *)
Definition returned (s : Series) (l : list (Event V)) : list V :=
  flat_map (fun e => match e with
                     | Call_get_at_index s' _ (Ok v) =>
                         if Series_eq_dec s' s then [v] else []
                     | _ => []
                     end) l.

(** The check boxes a log asked, with the answers, in order. *)
Definition queries (l : list (Event V)) : list (Checkbox * bool) :=
  flat_map (fun e => match e with
                     | Call_isChecked c b => [(c, b)]
                     | _ => []
                     end) l.

(** The texts given to [textboxSimulationIndex], the values given to spin
    box [sp], and the calls to [show] ([true]) and [hide] ([false]) on plot
    [p], in order. *)
Definition texts (l : list (Event V)) : list string :=
  flat_map (fun e => match e with SetText t => [t] | _ => [] end) l.

Definition values (sp : Spinbox) (l : list (Event V)) : list V :=
  flat_map (fun e => match e with
                     | SetValue sp' v =>
                         if Spinbox_eq_dec sp' sp then [v] else []
                     | _ => []
                     end) l.

Definition shows (p : PlotItem) (l : list (Event V)) : list bool :=
  flat_map (fun e => match e with
                     | Show p' => if PlotItem_eq_dec p' p then [true] else []
                     | Hide p' => if PlotItem_eq_dec p' p then [false] else []
                     | _ => []
                     end) l.

(** The last of [l], or [d] if there is none. *)
Definition latest {A} (d : A) (l : list A) : A :=
  fold_left (fun _ a => a) l d.

(** What the slot has done to the widgets, call by call: the text last
    given to [textboxSimulationIndex.setText], the argument of the last
    [setValue] on each spin box ([None]: [setValue] not called yet), which
    plots the last [show] or [hide] left visible, and the [(x, y)] arguments
    of the calls to [plot] on each plot, in order (each call asks for one
    more curve; the slot never clears a plot).  These are the arguments as
    the slot passes them.  What Qt and pyqtgraph make of them is not
    modelled: a [QDoubleSpinBox()] as built here displays its argument
    clamped to 0..99.99 and rounded to two decimals, and what a plot keeps
    of a call whose [x] and [y] differ in length is up to pyqtgraph. *)
Record Widgets : Type := mkWidgets {
  index_text : string;
  spin_value : Spinbox -> option V;
  visible : PlotItem -> bool;
  curves_on : PlotItem -> list (list Z * list V)
}.

(** The widgets as [createUserDisplayControls] and [MainWindow.__init__]
    leave them: [QLineEdit("0")], fresh spin boxes, seven plots added of
    which [p2] to [p7] are hidden. *)
Definition initial_widgets : Widgets :=
  {| index_text := "0";
     spin_value := fun _ => None;
     visible := fun p => match p with p1 => true | _ => false end;
     curves_on := fun _ => [] |}.

(** The record after one more event of the slot: the calls on widgets are
    noted with their arguments, the calls into the store and to [isChecked]
    change nothing. *)
Definition apply_event (g : Widgets) (e : Event V) : Widgets :=
  match e with
  | SetText t =>
      {| index_text := t; spin_value := spin_value g;
         visible := visible g; curves_on := curves_on g |}
  | SetValue sp v =>
      {| index_text := index_text g;
         spin_value := fun sp' => if Spinbox_eq_dec sp' sp then Some v
                                  else spin_value g sp';
         visible := visible g; curves_on := curves_on g |}
  | Show p =>
      {| index_text := index_text g; spin_value := spin_value g;
         visible := fun p' => if PlotItem_eq_dec p' p then true
                              else visible g p';
         curves_on := curves_on g |}
  | Hide p =>
      {| index_text := index_text g; spin_value := spin_value g;
         visible := fun p' => if PlotItem_eq_dec p' p then false
                              else visible g p';
         curves_on := curves_on g |}
  | Plot p x y _ _ =>
      {| index_text := index_text g; spin_value := spin_value g;
         visible := visible g;
         curves_on := fun p' => if PlotItem_eq_dec p' p
                                then curves_on g p' ++ [(x, y)]
                                else curves_on g p' |}
  | Call_get_simulation_index _
  | Call_get_at_index _ _ _
  | Call_isChecked _ _ => g
  end.

Definition apply_events (l : list (Event V)) (g : Widgets) : Widgets :=
  fold_left apply_event l g.

(** The widgets after the cycles whose logs are [logs], in order. *)
Definition apply_cycles (logs : list (list (Event V))) (g : Widgets)
  : Widgets :=
  fold_left (fun g l => apply_events l g) logs g.

(** *** The shape of a log *)

(** The positions of the loop: [x = [z+1 for z in range(index - 1)]]. *)
Definition positions (index : Z) : list Z :=
  map (fun z => z + 1) (range (index - 1)).

(** The reads of a cycle that completes: the six series of the spin boxes
    at [index - 1], then the six series of the loop at each position. *)
Definition schedule (index : Z) : list (Series * Z) :=
  map (fun s => (s, index - 1)) spin_series
  ++ flat_map (fun z => map (fun s => (s, z)) loop_series) (positions index).

(** The six values read for the spin boxes, the six values read in one
    iteration of the loop, and the answers of the five check boxes. *)
Record Shown : Type := mkShown {
  shown_time : V;
  shown_distance : V;
  shown_velocity : V;
  shown_acceleration : V;
  shown_motor_power : V;
  shown_battery_power : V
}.

Record Row : Type := mkRow {
  row_time : V;
  row_distance : V;
  row_velocity : V;
  row_max_velocity : V;
  row_acceleration : V;
  row_motor_power : V
}.

Record Answers : Type := mkAnswers {
  distance_checked : bool;
  velocity_checked : bool;
  acceleration_checked : bool;
  motor_power_checked : bool;
  battery_power_checked : bool
}.

Definition shown_events (i : Z) (sh : Shown) : list (Event V) :=
  [Call_get_at_index time i (Ok (shown_time sh));
   SetValue spinboxTime (shown_time sh);
   Call_get_at_index distance i (Ok (shown_distance sh));
   SetValue spinboxDistance (shown_distance sh);
   Call_get_at_index velocity i (Ok (shown_velocity sh));
   SetValue spinboxVelocity (shown_velocity sh);
   Call_get_at_index acceleration i (Ok (shown_acceleration sh));
   SetValue spinboxAcceleration (shown_acceleration sh);
   Call_get_at_index motor_power i (Ok (shown_motor_power sh));
   SetValue spinboxMotorPower (shown_motor_power sh);
   Call_get_at_index battery_power i (Ok (shown_battery_power sh));
   SetValue spinboxBatteryPower (shown_battery_power sh)].

Definition row_events (z : Z) (r : Row) : list (Event V) :=
  [Call_get_at_index time z (Ok (row_time r));
   Call_get_at_index distance z (Ok (row_distance r));
   Call_get_at_index velocity z (Ok (row_velocity r));
   Call_get_at_index track_max_velocity z (Ok (row_max_velocity r));
   Call_get_at_index acceleration z (Ok (row_acceleration r));
   Call_get_at_index motor_power z (Ok (row_motor_power r))].

Definition loop_events (x : list Z) (rows : list Row) : list (Event V) :=
  flat_map (fun zr => row_events (fst zr) (snd zr)) (combine x rows).

Definition plot_events (x : list Z) (rows : list Row) (a : Answers)
  : list (Event V) :=
  Plot p1 x (map row_time rows) "Time" None
  :: Call_isChecked checkboxDistance (distance_checked a)
  :: (if distance_checked a
      then [Show p2; Plot p2 x (map row_distance rows) "Distance (m)" None]
      else [Hide p2])
  ++ Call_isChecked checkboxVelocity (velocity_checked a)
  :: (if velocity_checked a
      then [Show p3;
            Plot p3 x (map row_max_velocity rows) "Max Velocity (m/sec)"
                 (Some "r"%string);
            Plot p3 x (map row_velocity rows) "Velocity (m/sec)" None]
      else [Hide p3])
  ++ Call_isChecked checkboxAcceleration (acceleration_checked a)
  :: (if acceleration_checked a
      then [Show p4;
            Plot p4 x (map row_acceleration rows) "Acceleration (m/sec^2)"
                 None]
      else [Hide p4])
  ++ Call_isChecked checkboxMotorPower (motor_power_checked a)
  :: (if motor_power_checked a
      then [Show p5; Plot p5 x (map row_motor_power rows) "Motor Power" None]
      else [Hide p5])
  ++ Call_isChecked checkboxBatteryPower (battery_power_checked a)
  :: (if battery_power_checked a
      then [Show p6; Plot p6 x [] "Battery Power" None]
      else [Hide p6]).

(** The log of a cycle that completes, from what the store and the check
    boxes answered. *)
Definition cycle_log (index : Z) (sh : Shown) (rows : list Row) (a : Answers)
  : list (Event V) :=
  Call_get_simulation_index index
  :: SetText (format (index - 1))
  :: shown_events (index - 1) sh
  ++ loop_events (positions index) rows
  ++ plot_events (positions index) rows a.

(** The lists of the slot after the iterations that read [rows]. *)
Definition extend (ls : Lists V) (rows : list Row) : Lists V :=
  {| _time := _time ls ++ map row_time rows;
     _distance := _distance ls ++ map row_distance rows;
     _velocity := _velocity ls ++ map row_velocity rows;
     _max_velocity := _max_velocity ls ++ map row_max_velocity rows;
     _acceleration := _acceleration ls ++ map row_acceleration rows;
     _motor_power := _motor_power ls ++ map row_motor_power rows;
     _battery_power := _battery_power ls;
     _battery_energy := _battery_energy ls |}.

(** An event of a cycle before its failing read: a read that succeeded, or
    the value of one of the six spin boxes in use. *)
Definition before_failure (e : Event V) : Prop :=
  match e with
  | Call_get_at_index _ _ (Ok _) => True
  | SetValue sp _ => sp <> spinboxBatteryEnergy
  | _ => False
  end.

(** A log that ends with the read that raised [e]. *)
Definition fails_at (e : Exn) (l : list (Event V)) : Prop :=
  exists l0 s i,
    l = l0 ++ [Call_get_at_index s i (Raise e)] /\
    Forall before_failure l0.

(** The shape of the log of a cycle, by its result. *)
Definition cycle_shape (l : list (Event V)) (r : result unit) : Prop :=
  match r with
  | Ok _ =>
      exists index sh rows a,
        length rows = length (positions index) /\
        l = cycle_log index sh rows a
  | Raise e =>
      exists index l',
        l = Call_get_simulation_index index
              :: SetText (format (index - 1)) :: l' /\
        fails_at e l'
  end.

End Cycle.

Arguments Widgets V : clear implicits.
Arguments Shown V : clear implicits.
Arguments Row V : clear implicits.

(** [n] cycles one after the other, each with its log and its result; the
    world a cycle leaves is the next one's. *)
Fixpoint run_cycles {V W} `{Self V W} (n : nat) (w : W)
  : list (list (Event V) * result unit) :=
  match n with
  | O => []
  | S n' =>
      match signalPlotRefresh w with
      | (w', l, r) => (l, r) :: run_cycles n' w'
      end
  end.

Definition completed {V} (c : list (Event V) * result unit) : bool :=
  match snd c with Ok _ => true | Raise _ => false end.

(** Two worlds to run a cycle in: the store after five committed records
    with every box checked, and the store of a new run. *)
Definition five_records_world : SpecWindow.World Z :=
  SpecWindow.mkWorld
    (Store.committed (SpecWindow.scenario_records (fun _ _ => 0) 5))
    (fun _ => true).

Definition new_run_world : SpecWindow.World Z :=
  SpecWindow.mkWorld Store.new_store (fun _ => true).

End Cycle.

(** ** The logging set-up *)

Module Logging.

(** The levels of Python's [logging] and their numbers. *)
Inductive Level : Type :=
| DEBUG
| INFO
| WARNING
| ERROR
| CRITICAL.

Definition levelno (lv : Level) : Z :=
  match lv with
  | DEBUG => 10
  | INFO => 20
  | WARNING => 30
  | ERROR => 40
  | CRITICAL => 50
  end.

(** Where a handler writes: [StreamHandler()] writes to the console,
    [FileHandler(name)] to the file [name]. *)
Inductive Stream : Type :=
| console
| file (filename : string).

(** A [logging.Formatter]: its format string and its style. *)
Record Formatter : Type := mkFormatter {
  fmt : string;
  style : string
}.

(** A handler: a new one has level [NOTSET] (0) and no formatter. *)
Record Handler : Type := mkHandler {
  stream : Stream;
  handler_level : Z;
  handler_formatter : option Formatter
}.

Definition StreamHandler : Handler := mkHandler console 0 None.
Definition FileHandler (filename : string) : Handler :=
  mkHandler (file filename) 0 None.

Definition Handler_setLevel (lv : Level) (h : Handler) : Handler :=
  mkHandler (stream h) (levelno lv) (handler_formatter h).

Definition setFormatter (f : Formatter) (h : Handler) : Handler :=
  mkHandler (stream h) (handler_level h) (Some f).

(** A logger: its level and its handlers, in the order they were added.
    The root logger of a new process has level [WARNING] and no handler. *)
Record Logger : Type := mkLogger {
  logger_level : Z;
  handlers : list Handler
}.

Definition new_root : Logger := mkLogger (levelno WARNING) [].

Definition setLevel (lv : Level) (lg : Logger) : Logger :=
  mkLogger (levelno lv) (handlers lg).

(** [Logger.addHandler] of a handler object the logger does not hold yet:
    it is put after the others. *)
Definition addHandler (h : Handler) (lg : Logger) : Logger :=
  mkLogger (logger_level lg) (handlers lg ++ [h]).

Definition LOG_FILE_SIZE : Z := 1024 * 1024 * 2.

(** [configure_logging()], on the root logger [logging.getLogger()]
    returns. *)
Definition configure_logging (root : Logger) : Logger :=
  let logger := setLevel DEBUG root in
  let formatter :=
    mkFormatter "{levelname:.1s}, {message}, {funcName}, {module}" "{" in
  let consoleHandler := StreamHandler in
  let consoleHandler := Handler_setLevel DEBUG consoleHandler in
  let consoleHandler := setFormatter formatter consoleHandler in
  let logger := addHandler consoleHandler logger in
  let fileHandler := FileHandler "example.log" in
  let fileHandler := setFormatter formatter fileHandler in
  let fileHandler := Handler_setLevel WARNING fileHandler in
  addHandler fileHandler logger.

(** What the handlers of the logger write of a record of level [lv]
    logged through it: nothing if [lv] is below the logger's level, else the
    record is passed to each handler whose level is not above [lv].  The
    result is the streams written to, in order.  This is all that is written
    when the logger has a handler; for a logger without any, see
    [logged]. *)
Definition written (lg : Logger) (lv : Level) : list Stream :=
  if levelno lv <? logger_level lg then []
  else flat_map (fun h => if levelno lv <? handler_level h then []
                          else [stream h])
                (handlers lg).

(** [logging.lastResort]: the handler of level [WARNING], writing to the
    console, that [logging] falls back on for a record that finds no handler
    at all. *)
Definition lastResort : Handler := mkHandler console (levelno WARNING) None.

(** What [logging] writes of a record of level [lv] logged through the root
    logger: nothing if [lv] is below the logger's level; with handlers, what
    they write; without any handler, what [lastResort] writes. *)
Definition logged (lg : Logger) (lv : Level) : list Stream :=
  if levelno lv <? logger_level lg then []
  else match handlers lg with
       | [] => if levelno lv <? handler_level lastResort then []
               else [stream lastResort]
       | _ :: _ => written lg lv
       end.

End Logging.

(** ** The window beside a running worker *)

Module Concurrent.
Import Window.

(** The world of a cycle that runs while the worker runs: the records the
    worker computes in this run, the number of calls it has made so far, and
    how many more it makes before each of the next calls of the slot into
    the store. *)
Record World (V : Type) : Type := mkWorld {
  recs : list (Series -> V);
  seen : nat;
  pace : list nat;
  checked : Checkbox -> bool
}.

Arguments mkWorld {V} recs seen pace checked.
Arguments recs {V} w.
Arguments seen {V} w.
Arguments pace {V} w.
Arguments checked {V} w.

Definition advance {V} (w : World V) : World V :=
  match pace w with
  | [] => w
  | d :: ds => mkWorld (recs w) (seen w + d) ds (checked w)
  end.

(** The store as a call of the slot finds it. *)
Definition store_now {V} (w : World V) : Store.DataStore V :=
  Store.observed (recs w) (seen w).

(** Modelled from the spec: the getters of [datastore.py] are not among the
    sources.  As in [SpecWindow], [get_simulation_index()] is the store's
    [current_index()] and [get_<series>_at_index(i)] is
    [read_field(i, <series>)]; here the worker has moved on before each
    call. *)
#[export] Instance World_Self (V : Type) : Self V (World V) := {
  data_store_get_simulation_index w :=
    (advance w, Store.current_index (store_now (advance w)));
  data_store_get_at_index s index w :=
    (advance w, Store.read_field index s (store_now (advance w)));
  checkbox_isChecked c w := (w, checked w c)
}.

(** An event of a cycle that holds the index [index], up to its loop: a
    read at a position from 0 to [index - 1]. *)
Definition reads_inside {V} (index : Z) (e : Event V) : Prop :=
  match e with
  | Call_get_at_index _ i _ => 0 <= i <= index - 1
  | Plot _ _ _ _ _ => False
  | _ => True
  end.

(** A world in which the worker is inside the seventh record of ten when
    the cycle starts and goes on during the cycle. *)
Definition busy_world : World Z :=
  mkWorld (SpecWindow.scenario_records (fun _ _ => 0) 10) 58
          [3; 0; 7; 1; 1; 9; 2; 0; 4; 5; 1; 1; 8; 3]%nat
          (fun _ => true).

End Concurrent.

(** * Properties *)

(** ** The series *)

Lemma all_series_complete (s : Series) : In s all_series.
Proof. destruct s; simpl; tauto. Qed.

Lemma all_series_NoDup : NoDup all_series.
Proof.
  unfold all_series.
  repeat (constructor; [simpl; intuition discriminate|]).
  constructor.
Qed.

(** ** The store and its producer *)

Module StoreFacts.
Import Store.

Section Facts.

Context {V : Type}.
Implicit Types (st : DataStore V) (ops : list (Op V)) (rec : Series -> V)
  (recs : list (Series -> V)).

Lemma exec_ops_app ops1 ops2 st :
  exec_ops (ops1 ++ ops2) st = exec_ops ops2 (exec_ops ops1 st).
Proof. unfold exec_ops. apply fold_left_app. Qed.

Lemma commits_app ops1 ops2 :
  commits (ops1 ++ ops2) = (commits ops1 + commits ops2)%nat.
Proof. unfold commits. rewrite filter_app, length_app. reflexivity. Qed.

Lemma write_field_index i s v st :
  simulation_index (write_field i s v st) = simulation_index st.
Proof. unfold write_field. destruct (i =? _); reflexivity. Qed.

Lemma exec_op_index st (o : Op V) :
  simulation_index (exec_op st o) =
  simulation_index st + (if is_commit o then 1 else 0).
Proof.
  destruct o; simpl; unfold begin_record, commit_record; simpl;
    try rewrite write_field_index; lia.
Qed.

Lemma exec_ops_index ops st :
  simulation_index (exec_ops ops st) =
  simulation_index st + Z.of_nat (commits ops).
Proof.
  revert st. induction ops as [|o ops IH]; intros st.
  - simpl. unfold commits. simpl. lia.
  - change (exec_ops (o :: ops) st) with (exec_ops ops (exec_op st o)).
    rewrite IH, exec_op_index. unfold commits. simpl.
    destruct (is_commit o); simpl length; lia.
Qed.

Lemma put_at_end i v (l : list V) :
  Z.of_nat (length l) = i -> put_at i v l = l ++ [v].
Proof.
  intros E. unfold put_at. apply Z.eqb_eq in E. rewrite E. reflexivity.
Qed.

(** Writing the sample of [rec] for the distinct series [ss], none of them
    written yet, appends one value to each of them. *)
Lemma exec_writes rec ss :
  forall st,
    NoDup ss ->
    (forall s, In s ss ->
               Z.of_nat (length (series st s)) = simulation_index st + 1) ->
    let st' := exec_ops (map (fun s => write_field_op
                                         (simulation_index st + 1) s (rec s))
                             ss) st in
    simulation_index st' = simulation_index st /\
    forall s, series st' s =
              series st s ++ (if in_dec Series_eq_dec s ss
                              then [rec s] else []).
Proof.
  induction ss as [|a ss IH]; intros st ND Hlen; simpl.
  - split; [reflexivity|]. intros s. now rewrite app_nil_r.
  - inversion ND as [|? ? Hna ND']; subst.
    set (st1 := write_field (simulation_index st + 1) a (rec a) st).
    assert (Hi : simulation_index st1 = simulation_index st)
      by apply write_field_index.
    assert (Hs : forall s, series st1 s =
                           if Series_eq_dec s a
                           then series st s ++ [rec a] else series st s).
    { intros s. unfold st1, write_field. rewrite Z.eqb_refl. simpl.
      destruct (Series_eq_dec s a) as [->|]; [|reflexivity].
      apply put_at_end, Hlen. now left. }
    destruct (IH st1 ND') as [IHi IHs].
    { intros s Hin. rewrite Hi, Hs.
      destruct (Series_eq_dec s a) as [->|]; [contradiction|].
      apply Hlen. now right. }
    rewrite Hi in IHi, IHs. fold (exec_ops (V:=V)).
    change (fold_left exec_op ?l ?s) with (exec_ops l s).
    split; [exact IHi|].
    intros s. rewrite IHs, Hs.
    destruct (Series_eq_dec a s) as [->|Hne].
    + destruct (Series_eq_dec s s); [|congruence].
      destruct (in_dec Series_eq_dec s ss); [contradiction|].
      now rewrite app_nil_r.
    + destruct (Series_eq_dec s a); [congruence|].
      destruct (in_dec Series_eq_dec s ss); reflexivity.
Qed.

Lemma record_ops_length i rec : length (record_ops i rec) = 9%nat.
Proof. reflexivity. Qed.

Lemma commits_writes i rec ss :
  commits (map (fun s => write_field_op i s (rec s)) ss) = 0%nat.
Proof. induction ss; [reflexivity|exact IHss]. Qed.

(** The worker seen inside a record: some of the series have their new
    sample, nothing is committed. *)
Lemma exec_record_prefix rec st k :
  full st -> (k < 9)%nat ->
  let ops := firstn k (record_ops (simulation_index st + 1) rec) in
  commits ops = 0%nat /\
  forall s, series (exec_ops ops st) s =
            series st s ++ (if in_dec Series_eq_dec s
                                 (firstn (k - 1) all_series)
                            then [rec s] else []).
Proof.
  intros F Hk. destruct k as [|k].
  - simpl. split; [reflexivity|]. intros s. now rewrite app_nil_r.
  - cbv zeta.
    change (firstn (S k) (record_ops ?i rec))
      with (begin_record_op
              :: firstn k (map (fun s => write_field_op i s (rec s)) all_series
                           ++ [commit_record_op])).
    change (commits (begin_record_op :: ?l)) with (commits l).
    change (exec_ops (begin_record_op :: ?l) st) with (exec_ops l st).
    replace (S k - 1)%nat with k by lia.
    rewrite firstn_app, length_map.
    replace (k - length all_series)%nat with 0%nat by (simpl; lia).
    rewrite firstn_O, app_nil_r, firstn_map.
    split; [apply (commits_writes _ rec (firstn k all_series))|].
    assert (ND : NoDup (firstn k all_series)).
    { apply NoDup_app_remove_r with (l' := skipn k all_series).
      rewrite firstn_skipn. apply all_series_NoDup. }
    apply (@exec_writes rec _ st ND).
    intros s _. apply F.
Qed.

(** The worker after a whole record. *)
Lemma exec_record rec st :
  full st ->
  let st' := exec_ops (record_ops (simulation_index st + 1) rec) st in
  full st' /\
  simulation_index st' = simulation_index st + 1 /\
  forall s, series st' s = series st s ++ [rec s].
Proof.
  intros F. unfold record_ops.
  change (exec_ops (begin_record_op :: ?l) st) with (exec_ops l st).
  rewrite exec_ops_app.
  destruct (@exec_writes rec _ st all_series_NoDup) as [Hi Hs].
  { intros s _. apply F. }
  set (st2 := exec_ops (map _ all_series) st) in *.
  change (exec_ops [commit_record_op] st2) with (commit_record st2).
  assert (Hs' : forall s, series st2 s = series st s ++ [rec s]).
  { intros s. rewrite Hs.
    destruct (in_dec Series_eq_dec s all_series) as [|n]; [reflexivity|].
    destruct n. apply all_series_complete. }
  unfold full, commit_record; cbn [series simulation_index].
  repeat split.
  - intros s. rewrite Hs', length_app, Hi, <- (F s). simpl. lia.
  - now rewrite Hi.
  - exact Hs'.
Qed.

(** What a reader can find at any point of a worker's run that started on a
    full store: [j] more records are committed, and [part] holds the samples
    already written for the record in progress. *)
Lemma exec_worker_prefix recs :
  forall st0 k,
    full st0 ->
    let ops := worker_ops (simulation_index st0) recs in
    exists (j : nat) (part : Series -> list V),
      (j <= length recs)%nat /\
      commits (firstn k ops) = j /\
      (forall s, series (exec_ops (firstn k ops) st0) s =
                 series st0 s ++ map (fun r => r s) (firstn j recs) ++ part s) /\
      (forall s, part s = [] \/
                 exists r, nth_error recs j = Some r /\ part s = [r s]) /\
      (nth_error ops k = Some commit_record_op -> forall s, part s <> []).
Proof.
  induction recs as [|rec recs IH]; intros st0 k F; cbn [worker_ops length];
    cbv zeta.
  - exists 0%nat, (fun _ => []). rewrite firstn_nil. simpl.
    repeat split; auto.
    + intros s. now rewrite app_nil_r.
    + destruct k; discriminate.
  - destruct (Nat.lt_ge_cases k 9) as [Hk|Hk].
    + rewrite firstn_app, record_ops_length.
      replace (k - 9)%nat with 0%nat by lia.
      rewrite firstn_O, app_nil_r.
      destruct (@exec_record_prefix rec st0 k F Hk) as [Hc Hs].
      exists 0%nat,
        (fun s => if in_dec Series_eq_dec s (firstn (k - 1) all_series)
                  then [rec s] else []).
      repeat split.
      * lia.
      * exact Hc.
      * intros s. rewrite Hs. reflexivity.
      * intros s. destruct (in_dec _ _ _); [right|left; reflexivity].
        exists rec. split; reflexivity.
      * intros Hn s.
        rewrite nth_error_app1 in Hn by (rewrite record_ops_length; lia).
        assert (k = 8)%nat as ->.
        { do 9 (destruct k as [|k]; [try discriminate; try reflexivity|]).
          lia. }
        simpl firstn.
        destruct (in_dec _ _ _) as [|n]; [discriminate|].
        destruct n. apply all_series_complete.
    + destruct (@exec_record rec st0 F) as (F1 & Hi1 & Hs1).
      set (st1 := exec_ops (record_ops (simulation_index st0 + 1) rec) st0)
        in *.
      rewrite firstn_app, record_ops_length.
      rewrite (firstn_all2 (n := k)) by (rewrite record_ops_length; lia).
      destruct (IH st1 (k - 9)%nat F1) as (j & part & Hj & Hc & Hs & Hp & Hn).
      rewrite Hi1 in Hc, Hs, Hn.
      exists (S j), part. repeat split.
      * simpl. lia.
      * rewrite commits_app, Hc. reflexivity.
      * intros s. rewrite exec_ops_app. fold st1. rewrite Hs, Hs1.
        simpl. rewrite <- app_assoc. reflexivity.
      * exact Hp.
      * intros Hk'. apply Hn.
        rewrite nth_error_app2 in Hk' by (rewrite record_ops_length; lia).
        rewrite record_ops_length in Hk'. exact Hk'.
Qed.

Lemma new_store_full : full (@new_store V).
Proof. intros s. reflexivity. Qed.

(** The store a reader finds after [k] calls of the worker: [j] records are
    committed, [j] being the number of [commit_record] calls so far, and
    [part] is what is written of the next one. *)
Lemma observed_shape recs k :
  exists (j : nat) (part : Series -> list V),
    (j <= length recs)%nat /\
    commits (firstn k (worker_ops (-1) recs)) = j /\
    simulation_index (observed recs k) = Z.of_nat j - 1 /\
    (forall s, series (observed recs k) s =
               map (fun r => r s) (firstn j recs) ++ part s) /\
    (forall s, part s = [] \/
               exists r, nth_error recs j = Some r /\ part s = [r s]) /\
    (nth_error (worker_ops (-1) recs) k = Some commit_record_op ->
     forall s, part s <> []).
Proof.
  destruct (@exec_worker_prefix recs new_store k new_store_full)
    as (j & part & Hj & Hc & Hs & Hp & Hn).
  exists j, part. repeat split; auto.
  unfold observed. rewrite exec_ops_index.
  change (worker_ops (simulation_index (@new_store V)) recs)
    with (worker_ops (-1) recs) in Hc.
  rewrite Hc. change (simulation_index (@new_store V)) with (-1). lia.
Qed.

(** A read inside the published range gives the sample the worker computed
    for that position. *)
Lemma worker_reads recs k i s :
  0 <= i <= simulation_index (observed recs k) ->
  exists r, nth_error recs (Z.to_nat i) = Some r /\
            read_field i s (observed recs k) = Ok (r s).
Proof.
  intros Hi.
  destruct (observed_shape recs k) as (j & part & Hj & _ & Hidx & Hs & _ & _).
  rewrite Hidx in Hi.
  assert (Hlt : (Z.to_nat i < j)%nat) by lia.
  destruct (nth_error recs (Z.to_nat i)) as [r|] eqn:E.
  2: { apply nth_error_None in E. lia. }
  exists r. split; [reflexivity|].
  unfold read_field. rewrite Hidx.
  replace ((i <? 0) || (Z.of_nat j - 1 <? i)) with false
    by (symmetry; apply orb_false_iff; split; apply Z.ltb_ge; lia).
  rewrite Hs, nth_error_app1 by (rewrite length_map, length_firstn; lia).
  rewrite nth_error_map, nth_error_firstn.
  destruct (Nat.ltb_spec (Z.to_nat i) j); [|lia].
  rewrite E. reflexivity.
Qed.

Lemma read_field_outside i s st :
  i > simulation_index st \/ i < 0 ->
  read_field i s st = Raise OutOfRangeError.
Proof.
  intros Hi. unfold read_field.
  replace ((i <? 0) || (simulation_index st <? i)) with true; [reflexivity|].
  symmetry. apply orb_true_iff.
  destruct Hi; [right|left]; apply Z.ltb_lt; lia.
Qed.

Lemma read_field_Ok_inside i s st v :
  read_field i s st = Ok v -> 0 <= i <= simulation_index st.
Proof.
  intros E.
  destruct (Z_lt_ge_dec i 0) as [Hn|Hn];
    [rewrite read_field_outside in E by lia; discriminate|].
  destruct (Z_gt_le_dec i (simulation_index st)) as [Hg|Hg];
    [rewrite read_field_outside in E by lia; discriminate|].
  lia.
Qed.

Lemma firstn_le_app A (l : list A) k k' :
  (k <= k')%nat -> exists l2, firstn k' l = firstn k l ++ l2.
Proof.
  intros Hk. exists (skipn k (firstn k' l)).
  rewrite <- (firstn_skipn k (firstn k' l)) at 1.
  rewrite firstn_firstn, Nat.min_l by exact Hk. reflexivity.
Qed.

Lemma observed_index_le recs k k' :
  (k <= k')%nat ->
  simulation_index (observed recs k) <= simulation_index (observed recs k').
Proof.
  intros Hk. unfold observed.
  destruct (firstn_le_app (worker_ops (-1) recs) Hk) as [l2 ->].
  rewrite exec_ops_app, (exec_ops_index l2). lia.
Qed.




End Facts.

(** *** Concrete runs *)

Example committed_five :
  let st := committed (SpecWindow.scenario_records (fun _ _ => 0) 5) in
  current_index st = 4 /\
  series st time = [0; 1; 2; 3; 4] /\
  read_field 4 time st = Ok 4 /\
  read_field 5 time st = Raise OutOfRangeError /\
  read_field (-1) time st = Raise OutOfRangeError.
Proof. repeat split. Qed.

Example observed_inside_a_record :
  let st := observed (SpecWindow.scenario_records (fun _ _ => 7) 5) 12 in
  current_index st = 0 /\
  series st time = [0; 1] /\
  series st distance = [7; 7] /\
  series st velocity = [7] /\
  read_field 1 time st = Raise OutOfRangeError.
Proof. repeat split. Qed.

Section Claims.

Context {V : Type}.
Implicit Types (st : DataStore V) (ops : list (Op V)) (rec : Series -> V)
  (recs : list (Series -> V)).

Lemma read_field_Ok_iff i s st v :
  read_field i s st = Ok v <->
  0 <= i <= simulation_index st /\
  nth_error (series st s) (Z.to_nat i) = Some v.
Proof.
  split.
  - intros E. split; [exact (read_field_Ok_inside _ _ _ E)|].
    unfold read_field in E.
    destruct ((i <? 0) || (simulation_index st <? i)); [discriminate|].
    destruct (nth_error (series st s) (Z.to_nat i)); [|discriminate].
    congruence.
  - intros [Hi Hn]. unfold read_field.
    replace ((i <? 0) || (simulation_index st <? i)) with false
      by (symmetry; apply orb_false_iff; split; apply Z.ltb_ge; lia).
    now rewrite Hn.
Qed.

(** Putting a value at position [index] leaves the entries below it. *)
Lemma put_at_below index w (l : list V) n x :
  nth_error l n = Some x -> Z.of_nat n < index ->
  nth_error (put_at index w l) n = Some x.
Proof.
  intros Hn Hlt.
  assert (Hlen : (n < length l)%nat)
    by (apply nth_error_Some; congruence).
  unfold put_at.
  destruct (Z.eqb_spec (Z.of_nat (length l)) index) as [E|_].
  - now rewrite nth_error_app1.
  - destruct (Z.eqb_spec (Z.of_nat (length l)) (index + 1)) as [E|_];
      [|exact Hn].
    rewrite removelast_firstn_len.
    rewrite nth_error_app1 by (rewrite length_firstn; lia).
    rewrite nth_error_firstn.
    destruct (Nat.ltb_spec n (Nat.pred (length l))); [exact Hn|lia].
Qed.

(** No call of the producer changes what a read that succeeds returns. *)
Lemma read_field_exec_op i s st (o : Op V) v :
  read_field i s st = Ok v -> read_field i s (exec_op st o) = Ok v.
Proof.
  intros E. apply read_field_Ok_iff in E. destruct E as [Hi Hn].
  apply read_field_Ok_iff. destruct o as [|j s' w|]; simpl.
  - split; assumption.
  - unfold write_field.
    destruct (Z.eqb_spec j (simulation_index st + 1)) as [->|_];
      [|split; assumption].
    simpl. split; [exact Hi|].
    destruct (Series_eq_dec s s') as [->|_]; [|exact Hn].
    apply put_at_below; [exact Hn|]. rewrite Z2Nat.id; lia.
  - unfold commit_record. simpl. split; [lia|exact Hn].
Qed.

Lemma read_field_exec_ops i s ops : forall st v,
  read_field i s st = Ok v -> read_field i s (exec_ops ops st) = Ok v.
Proof.
  induction ops as [|o ops IH]; intros st v E; [exact E|].
  change (exec_ops (o :: ops) st) with (exec_ops ops (exec_op st o)).
  apply IH, read_field_exec_op, E.
Qed.

(** C5. In every store a reader can find while the worker runs,
    [read_field(i, s)] fails with [OutOfRangeError] exactly when
    [i > simulation_index] or [i < 0]; for [0 <= i <= simulation_index] it
    returns a value, and every later read of the same position returns that
    same value: later in the same run of the worker, and after any calls of
    [begin_record], [write_field] and [commit_record] whatever, on this
    store (second part) and on any store at all (third part): a write to a
    committed position changes nothing. *)
Theorem read_field_range_and_stability
  (recs : list (Series -> V)) (k : nat) (i : Z) (s : Series) :
  let st := observed recs k in
  (read_field i s st = Raise OutOfRangeError <->
   i > simulation_index st \/ i < 0) /\
  (0 <= i <= simulation_index st ->
   exists v, read_field i s st = Ok v /\
             (forall k', (k <= k')%nat ->
                         read_field i s (observed recs k') = Ok v) /\
             (forall ops, read_field i s (exec_ops ops st) = Ok v)) /\
  (forall st' ops v,
      read_field i s st' = Ok v ->
      read_field i s (exec_ops ops st') = Ok v).
Proof.
  cbv zeta. split; [|split].
  - split; [|apply read_field_outside].
    intros E.
    destruct (Z_gt_le_dec i (simulation_index (observed recs k))); [now left|].
    destruct (Z_lt_ge_dec i 0); [now right|].
    destruct (@worker_reads V recs k i s) as (r & _ & E'); [lia|].
    rewrite E' in E. discriminate.
  - intros Hi.
    destruct (@worker_reads V recs k i s Hi) as (r & Hr & E).
    exists (r s). split; [exact E|]. split.
    + intros k' Hk.
      destruct (@worker_reads V recs k' i s) as (r' & Hr' & E').
      { pose proof (observed_index_le recs Hk). lia. }
      rewrite Hr in Hr'. injection Hr' as <-. exact E'.
    + intros ops. apply read_field_exec_ops, E.
  - intros st' ops v. apply read_field_exec_ops.
Qed.

(** C7. [simulation_index] never decreases: no call of the producer lowers
    it, and of two observations of [current_index()] in one run the later
    one is at least the earlier one. *)
Theorem simulation_index_monotone st (o : Op V) ops1 ops2 :
  current_index st <= current_index (exec_op st o) /\
  current_index (exec_ops ops1 st)
  <= current_index (exec_ops (ops1 ++ ops2) st).
Proof.
  unfold current_index. split.
  - rewrite exec_op_index. destruct (is_commit o); lia.
  - rewrite exec_ops_app, (exec_ops_index ops2). lia.
Qed.

(** C8. At any point between two calls of the worker: a read at
    [simulation_index + 1] fails; a read that succeeds is at a position whose
    [commit_record] has already returned; [commit_record] is the only call
    that changes [simulation_index]; and when the worker calls
    [commit_record], every series already holds its value at the position
    being committed. *)
Theorem commit_is_the_point_of_visibility
  (recs : list (Series -> V)) (k : nat) (s : Series) :
  let ops := worker_ops (-1) recs in
  let st := observed recs k in
  read_field (simulation_index st + 1) s st = Raise OutOfRangeError /\
  (forall i v, read_field i s st = Ok v ->
               0 <= i /\ (Z.to_nat i < commits (firstn k ops))%nat) /\
  (forall st' (o : Op V),
      simulation_index (exec_op st' o) <> simulation_index st' ->
      o = commit_record_op) /\
  (nth_error ops k = Some commit_record_op ->
   forall s', exists v,
     nth_error (series st s') (Z.to_nat (simulation_index st + 1)) = Some v).
Proof.
  cbv zeta.
  destruct (observed_shape recs k) as (j & part & Hj & Hc & Hidx & Hs & _ & Hn).
  split; [apply read_field_outside; lia|].
  split; [intros i v E; apply read_field_Ok_inside in E; lia|].
  split.
  - intros st' o Hne. rewrite exec_op_index in Hne.
    destruct o; simpl in Hne; try lia. reflexivity.
  - intros Hk s'. specialize (Hn Hk s').
    rewrite Hs, Hidx.
    replace (Z.to_nat (Z.of_nat j - 1 + 1)) with
      (length (map (fun r => r s') (firstn j recs)) + 0)%nat
      by (rewrite length_map, length_firstn; lia).
    rewrite nth_error_app2, Nat.add_comm, Nat.add_sub by lia.
    destruct (part s') as [|v ?]; [contradiction|].
    exists v. reflexivity.
Qed.

End Claims.
End StoreFacts.

(** ** The refresh slot *)

Module WindowFacts.
Import Window.

Ltac open_run := cbv [world_of log_of result_of fst snd] in *.

Ltac side := simpl; first [exact Logic.I | lia | assumption].

Ltac slot_unfold :=
  unfold signalPlotRefresh, append_at, get_time_at_index,
    get_distance_at_index, get_velocity_at_index,
    get_track_max_velocity_at_index, get_acceleration_at_index,
    get_motor_power_at_index, get_battery_power_at_index,
    textboxSimulationIndex_setText, setValue, show, hide, plot.

(** *** Rules for the computations of the slot

    [index_spec] and [read_spec] are what is known of the answers of the
    store in the worlds of [I]. *)
Section Logic.

Context {V W : Type} `{Self V W}.
Variable I : W -> Prop.
Variable index_spec : Z -> Prop.
Variable read_spec : Series -> Z -> result V -> Prop.

Hypothesis index_ok : forall w,
  I w -> I (fst (data_store_get_simulation_index w)) /\
         index_spec (snd (data_store_get_simulation_index w)).
Hypothesis read_ok : forall s i w,
  I w -> I (fst (data_store_get_at_index s i w)) /\
         read_spec s i (snd (data_store_get_at_index s i w)).
Hypothesis checked_ok : forall c w,
  I w -> I (fst (checkbox_isChecked c w)).

Local Hint Constructors Forall : core.

Local Abbreviation hoare := (@Window.hoare V W _ I).
Local Abbreviation post := (@Window.post V W _ I).

Lemma hoare_ret A (a : A) P (R : A -> Prop) E :
  R a -> hoare (ret a) P R E.
Proof. intros Ha w Hw. unfold ret. open_run. auto. Qed.

Lemma hoare_emit e (P : Event V -> Prop) (R : unit -> Prop) E :
  P e -> R tt -> hoare (emit e) P R E.
Proof. intros He Ht w Hw. unfold emit. open_run. auto. Qed.

Lemma hoare_bind A B (c : M V W A) (k : A -> M V W B) P R R' E :
  hoare c P R E ->
  (forall a, R a -> hoare (k a) P R' E) ->
  hoare (bind c k) P R' E.
Proof.
  intros Hc Hk w Hw. unfold bind.
  destruct (Hc w Hw) as (Hi & Hl & Hr).
  destruct (c w) as [[w1 l1] [a|e]]; open_run.
  - destruct (Hk a Hr w1 Hi) as (Hi' & Hl' & Hr').
    destruct (k a w1) as [[w2 l2] r]; open_run.
    repeat split; auto. apply Forall_app; auto.
  - repeat split; auto.
Qed.

Lemma hoare_index (P : Event V -> Prop) (R : Z -> Prop) E :
  (forall r, index_spec r -> P (Call_get_simulation_index r) /\ R r) ->
  hoare get_simulation_index P R E.
Proof.
  intros Hr w Hw. unfold get_simulation_index.
  destruct (index_ok Hw) as [Hi Hs].
  destruct (data_store_get_simulation_index w) as [w' r]; open_run.
  destruct (Hr r Hs). repeat split; auto.
Qed.

Lemma hoare_read s i (P : Event V -> Prop) (R : V -> Prop) E :
  (forall r, read_spec s i r ->
             P (Call_get_at_index s i r) /\ outcome R E r) ->
  hoare (get_at_index s i) P R E.
Proof.
  intros Hr w Hw. unfold get_at_index.
  destruct (read_ok s i Hw) as [Hi Hs].
  destruct (data_store_get_at_index s i w) as [w' r]; open_run.
  destruct (Hr r Hs). repeat split; auto.
Qed.

Lemma hoare_checked c (P : Event V -> Prop) (R : bool -> Prop) E :
  (forall b, P (Call_isChecked c b) /\ R b) ->
  hoare (isChecked c) P R E.
Proof.
  intros Hr w Hw. unfold isChecked.
  pose proof (checked_ok c Hw) as Hi.
  destruct (checkbox_isChecked c w) as [w' r]; open_run.
  destruct (Hr r). repeat split; auto.
Qed.

Lemma hoare_weaken A (c : M V W A) P (R R' : A -> Prop) E :
  hoare c P R E -> (forall a, R a -> R' a) -> hoare c P R' E.
Proof.
  intros Hc HR w Hw. destruct (Hc w Hw) as (Hi & Hl & Hr).
  repeat split; auto.
  destruct (result_of (c w)); simpl in *; auto.
Qed.

Lemma hoare_if A (b : bool) (c1 c2 : M V W A) P R E :
  hoare c1 P R E -> hoare c2 P R E -> hoare (if b then c1 else c2) P R E.
Proof. destruct b; auto. Qed.

Lemma hoare_post A (c : M V W A) P R E (Q : _ -> _ -> Prop) :
  hoare c P R E ->
  (forall l r, Forall P l -> outcome R E r -> Q l r) ->
  post c Q.
Proof. intros Hc HQ w Hw. destruct (Hc w Hw) as (_ & ? & ?). auto. Qed.

Lemma post_bind A B (c : M V W A) (k : A -> M V W B) P R E
  (Q : _ -> _ -> Prop) :
  hoare c P R E ->
  (forall l e, Forall P l -> E e -> Q l (Raise e)) ->
  (forall a l, R a -> Forall P l ->
               post (k a) (fun l' r' => Q (l ++ l') r')) ->
  post (bind c k) Q.
Proof.
  intros Hc HE Hk w Hw. unfold bind.
  destruct (Hc w Hw) as (Hi & Hl & Hr).
  destruct (c w) as [[w1 l1] [a|e]]; open_run.
  - specialize (Hk a l1 Hr Hl w1 Hi).
    destruct (k a w1) as [[w2 l2] r]; open_run. exact Hk.
  - auto.
Qed.

(** The frame rule: a statement whose events [Q] does not look at. *)
Lemma post_frame A B (c : M V W A) (k : A -> M V W B) P R E
  (Q : _ -> _ -> Prop) :
  hoare c P R E ->
  (forall l l' r, Forall P l -> Q l' r -> Q (l ++ l') r) ->
  (forall l e, Forall P l -> E e -> Q l (Raise e)) ->
  (forall a, R a -> post (k a) Q) ->
  post (bind c k) Q.
Proof.
  intros Hc Hf HE Hk. apply post_bind with (P := P) (R := R) (E := E); auto.
  intros a l Ha Hl w Hw. apply Hf; auto. apply Hk; auto.
Qed.

Lemma post_emit B e (k : unit -> M V W B) (Q : _ -> _ -> Prop) :
  post (k tt) (fun l r => Q (e :: l) r) ->
  post (bind (emit e) k) Q.
Proof.
  intros Hk w Hw. unfold bind, emit. specialize (Hk w Hw).
  destruct (k tt w) as [[w2 l2] r]; open_run. exact Hk.
Qed.

Lemma post_emit_last e (Q : _ -> _ -> Prop) :
  Q [e] (Ok tt) -> post (emit e) Q.
Proof. intros HQ w Hw. exact HQ. Qed.

Lemma post_index B (k : Z -> M V W B) (Q : _ -> _ -> Prop) :
  (forall r, index_spec r ->
             post (k r) (fun l res => Q (Call_get_simulation_index r :: l)
                                        res)) ->
  post (bind get_simulation_index k) Q.
Proof.
  intros Hk w Hw. unfold bind, get_simulation_index.
  destruct (index_ok Hw) as [Hi Hs].
  destruct (data_store_get_simulation_index w) as [w' r]; open_run.
  specialize (Hk r Hs w' Hi).
  destruct (k r w') as [[w2 l2] res]; open_run. exact Hk.
Qed.

Lemma post_read B s i (k : V -> M V W B) (Q : _ -> _ -> Prop) :
  (forall r, read_spec s i r ->
             match r with
             | Ok a => post (k a)
                            (fun l res => Q (Call_get_at_index s i r :: l) res)
             | Raise e => Q [Call_get_at_index s i r] (Raise e)
             end) ->
  post (bind (get_at_index s i) k) Q.
Proof.
  intros Hk w Hw. unfold bind, get_at_index.
  destruct (read_ok s i Hw) as [Hi Hs].
  destruct (data_store_get_at_index s i w) as [w' r]; open_run.
  specialize (Hk r Hs). destruct r as [a|e].
  - specialize (Hk w' Hi).
    destruct (k a w') as [[w2 l2] res]; open_run. exact Hk.
  - exact Hk.
Qed.

Lemma post_checked B c (k : bool -> M V W B) (Q : _ -> _ -> Prop) :
  (forall b, post (k b) (fun l res => Q (Call_isChecked c b :: l) res)) ->
  post (bind (isChecked c) k) Q.
Proof.
  intros Hk w Hw. unfold bind, isChecked.
  pose proof (checked_ok c Hw) as Hi.
  destruct (checkbox_isChecked c w) as [w' r]; open_run.
  specialize (Hk r w' Hi).
  destruct (k r w') as [[w2 l2] res]; open_run. exact Hk.
Qed.

(** The loop: [J rest ls] is what is known before the iterations for
    [rest], with the lists as they are then. *)
Lemma hoare_for_z_in (J : list Z -> Lists V -> Prop) P E x :
  (forall z rest ls, J (z :: rest) ls -> hoare (append_at z ls) P (J rest) E)
  -> forall ls, J x ls -> hoare (for_z_in x ls) P (J []) E.
Proof.
  intros Hstep. induction x as [|z x IH]; intros ls HJ; simpl.
  - apply hoare_ret. exact HJ.
  - eapply hoare_bind; [apply Hstep; exact HJ|].
    intros ls' HJ'. apply IH. exact HJ'.
Qed.

End Logic.

(** *** Any store, any world *)

Section AnyWorld.

Context {V W : Type} `{Self V W}.

Let any_world : W -> Prop := fun _ => True.
Let any_index : Z -> Prop := fun _ => True.
Let any_read : Series -> Z -> result V -> Prop := fun _ _ _ => True.

Lemma any_index_ok (w : W) :
  any_world w ->
  any_world (fst (data_store_get_simulation_index w)) /\
  any_index (snd (data_store_get_simulation_index w)).
Proof. split; exact Logic.I. Qed.

Lemma any_read_ok s i (w : W) :
  any_world w ->
  any_world (fst (data_store_get_at_index s i w)) /\
  any_read s i (snd (data_store_get_at_index s i w)).
Proof. split; exact Logic.I. Qed.

Lemma any_checked_ok c (w : W) :
  any_world w -> any_world (fst (checkbox_isChecked c w)).
Proof. intros _. exact Logic.I. Qed.

Lemma bounded_queries snapshot (l : list (Event V)) :
  Forall (bounded snapshot) l -> index_queries l = 0%nat.
Proof.
  induction 1 as [|e l He _ IH]; [reflexivity|].
  destruct e; simpl in *; auto. contradiction.
Qed.

Lemma bounded_reads snapshot (l : list (Event V)) :
  Forall (bounded snapshot) l ->
  Forall (fun i => i < snapshot) (read_indices l).
Proof.
  induction 1 as [|e l He _ IH]; [constructor|].
  destruct e; simpl in *; auto.
Qed.

Lemma range_bound n z : In z (map (fun z => z + 1) (range n)) -> 1 <= z <= n.
Proof.
  unfold range. rewrite map_map. intros Hin.
  apply in_map_iff in Hin. destruct Hin as (k & <- & Hk).
  apply in_seq in Hk. lia.
Qed.

Ltac any_step :=
  lazymatch goal with
  | |- hoare _ (bind _ _) _ _ _ =>
      apply hoare_bind with (R := fun _ => True); [|intros ? _]
  | |- hoare _ (get_at_index _ _) _ _ _ =>
      apply hoare_read with (read_spec := any_read);
      [exact any_read_ok|intros [?|?] _; split; side]
  | |- hoare _ (isChecked _) _ _ _ =>
      apply hoare_checked; [exact any_checked_ok|intros ?; split; side]
  | |- hoare _ (emit _) _ _ _ => apply hoare_emit; side
  | |- hoare _ (if _ then _ else _) _ _ _ => apply hoare_if
  | |- hoare _ (ret _) _ _ _ => apply hoare_ret; side
  end.

(** The iterations of the loop for positions below the snapshot do bounded
    events only. *)
Lemma for_z_in_bounded snapshot x (ls : Lists V) :
  Forall (fun z => z < snapshot) x ->
  hoare any_world (for_z_in x ls) (bounded snapshot) (fun _ => True)
        (fun _ => True).
Proof.
  intros Hx.
  apply hoare_weaken
    with (R := fun _ : Lists V => Forall (fun z => z < snapshot) []);
    [|trivial].
  apply (hoare_for_z_in
           (fun rest (_ : Lists V) => Forall (fun z => z < snapshot) rest));
    [|exact Hx].
  intros z rest ls' Hz. inversion Hz; subst.
  slot_unfold. repeat any_step.
Qed.

(** C4. In every refresh cycle, whatever the store answers, the index of
    the store is queried exactly once, as the first call of the cycle, and
    every read of the cycle is at an index below that one snapshot (at most
    [snapshot - 1]). *)
Theorem signalPlotRefresh_single_snapshot (w : W) :
  let l := log_of (signalPlotRefresh w) in
  exists snapshot,
    hd_error l = Some (Call_get_simulation_index snapshot) /\
    index_queries l = 1%nat /\
    Forall (fun i => i <= snapshot - 1 /\ i <= snapshot) (read_indices l).
Proof.
  cbv zeta. revert w.
  enough (Hp : post any_world signalPlotRefresh
                 (fun l _ =>
                    exists snapshot,
                      hd_error l = Some (Call_get_simulation_index snapshot) /\
                      index_queries l = 1%nat /\
                      Forall (fun i => i <= snapshot - 1 /\ i <= snapshot)
                             (read_indices l)))
    by (intros w; exact (Hp w Logic.I)).
  unfold signalPlotRefresh at 1.
  apply post_index with (index_spec := any_index); [exact any_index_ok|].
  intros index _.
  match goal with
  | |- post _ ?c _ =>
      assert (Hb : hoare any_world c (bounded index) (fun _ => True)
                         (fun _ => True))
  end.
  { slot_unfold. repeat any_step.
    apply for_z_in_bounded.
    apply Forall_forall. intros z Hz. apply range_bound in Hz. lia. }
  eapply hoare_post; [exact Hb|].
  intros l r Hl _. exists index. simpl.
  rewrite (bounded_queries Hl). repeat split.
  eapply Forall_impl; [|apply (bounded_reads Hl)].
  simpl. intros; lia.
Qed.

Lemma neutral_plotted (l : list (Event V)) :
  Forall neutral l -> plotted p6 l = [].
Proof.
  induction 1 as [|e l He _ IH]; [reflexivity|].
  destruct e; simpl in *; auto.
  destruct p; simpl in *; auto. contradiction.
Qed.

Lemma neutral_not_checked (l : list (Event V)) b :
  Forall neutral l -> ~ In (Call_isChecked checkboxBatteryPower b) l.
Proof.
  intros Hl Hin. rewrite Forall_forall in Hl. exact (Hl _ Hin).
Qed.

Lemma plotted_app p (l l' : list (Event V)) :
  plotted p (l ++ l') = plotted p l ++ plotted p l'.
Proof.
  induction l as [|e l IH]; [reflexivity|].
  destruct e; simpl; auto.
  destruct (PlotItem_eq_dec p0 p); simpl; congruence.
Qed.

Lemma battery_plot_empty_frame x (l l' : list (Event V)) :
  Forall neutral l -> battery_plot_empty x l' ->
  battery_plot_empty x (l ++ l').
Proof.
  intros Hl Hq Hin. rewrite plotted_app, (neutral_plotted Hl). simpl.
  apply Hq. apply in_app_iff in Hin. destruct Hin as [Hin|Hin]; [|exact Hin].
  destruct (neutral_not_checked _ Hl Hin).
Qed.

Lemma battery_plot_empty_neutral x (l : list (Event V)) :
  Forall neutral l -> battery_plot_empty x l.
Proof. intros Hl Hin. destruct (neutral_not_checked _ Hl Hin). Qed.

(** The loop never appends to [_battery_power]. *)
Lemma for_z_in_battery_power x (ls : Lists V) :
  hoare any_world (for_z_in x ls) neutral
        (fun ls' => _battery_power ls' = _battery_power ls) (fun _ => True).
Proof.
  apply (hoare_for_z_in
           (fun (_ : list Z) ls' => _battery_power ls' = _battery_power ls));
    [|reflexivity].
  intros z rest ls' Hz. slot_unfold. repeat any_step.
Qed.

Ltac neutral_step :=
  lazymatch goal with
  | |- post _ (bind (for_z_in _ _) _) _ =>
      apply post_frame
        with (P := neutral) (R := fun ls => _battery_power ls = [])
             (E := fun _ => True);
      [ apply for_z_in_battery_power
      | intros ? ? ? ? ?; apply battery_plot_empty_frame; assumption
      | intros ? ? ? _; apply battery_plot_empty_neutral; assumption
      | intros ? ? ]
  | |- post _ (bind (isChecked checkboxBatteryPower) _) _ => fail
  | |- post _ (bind _ _) _ =>
      apply post_frame
        with (P := neutral) (R := fun _ => True) (E := fun _ => True);
      [ repeat any_step
      | intros ? ? ? ? ?; apply battery_plot_empty_frame; assumption
      | intros ? ? ? _; apply battery_plot_empty_neutral; assumption
      | intros ? _ ]
  end.

Lemma length_positions n :
  Z.of_nat (length (map (fun z => z + 1) (range n))) = Z.max 0 n.
Proof. unfold range. rewrite !length_map, length_seq. lia. Qed.

(** C10. In every refresh cycle that finds the Battery Power box checked,
    whatever the store answers, [p6.plot] is called exactly once, with
    [x = [1, ..., current_sim_index]], whose length is [current_sim_index]
    (the index the cycle took from the store, minus one) when that is not
    negative, and with the empty list as [y]; the two lengths differ as soon
    as [current_sim_index] is positive. *)
Theorem battery_power_plot_has_empty_y (w : W) (index : Z) :
  let l := log_of (signalPlotRefresh w) in
  let current_sim_index := index - 1 in
  let x := map (fun z => z + 1) (range current_sim_index) in
  hd_error l = Some (Call_get_simulation_index index) ->
  In (Call_isChecked checkboxBatteryPower true) l ->
  plotted p6 l = [(x, [])] /\
  Z.of_nat (length x) = Z.max 0 current_sim_index /\
  (0 < current_sim_index -> length x <> length (@nil V)).
Proof.
  cbv zeta. intros Hhd Hin.
  assert (Hlen := length_positions (index - 1)).
  split; [|split; [exact Hlen|simpl; lia]].
  clear Hlen. revert index Hhd Hin.
  enough (Hp : post any_world signalPlotRefresh
                 (fun l _ =>
                    forall index,
                      hd_error l = Some (Call_get_simulation_index index) ->
                      battery_plot_empty
                        (map (fun z => z + 1) (range (index - 1))) l))
    by exact (Hp w Logic.I).
  unfold signalPlotRefresh at 1.
  apply post_index with (index_spec := any_index); [exact any_index_ok|].
  intros index _.
  match goal with
  | |- post _ ?c _ =>
      enough (Hq : post any_world c
                     (fun l _ =>
                        battery_plot_empty
                          (map (fun z => z + 1) (range (index - 1))) l))
  end.
  { intros w' Hw' index' Hhd. injection Hhd as <-.
    intros Hin. simpl. apply (Hq w' Hw').
    destruct Hin as [Hin|Hin]; [discriminate|exact Hin]. }
  slot_unfold. repeat neutral_step.
  apply post_checked; [exact any_checked_ok|].
  intros [|] w' _ Hin; open_run; simpl in *.
  - match goal with Hbp : _battery_power _ = [] |- _ => rewrite Hbp end.
    reflexivity.
  - destruct Hin as [Hin|[Hin|[]]]; discriminate.
Qed.

End AnyWorld.

End WindowFacts.

(** ** The refresh slot over the store of the specification *)

Module SpecWindowFacts.
Import Window SpecWindow WindowFacts.
Import Store StoreFacts.

Section StandingStore.

Context {V : Type}.
Variable st : DataStore V.
Variable boxes : Checkbox -> bool.

Let w0 : World V := mkWorld st boxes.
Let this_world : World V -> Prop := eq w0.
Let this_index : Z -> Prop := fun r => r = current_index st.
Let this_read : Series -> Z -> result V -> Prop :=
  fun s i r => r = read_field i s st.

Lemma this_index_ok (w : World V) :
  this_world w ->
  this_world (fst (data_store_get_simulation_index w)) /\
  this_index (snd (data_store_get_simulation_index w)).
Proof. intros <-. split; reflexivity. Qed.

Lemma this_read_ok s i (w : World V) :
  this_world w ->
  this_world (fst (data_store_get_at_index s i w)) /\
  this_read s i (snd (data_store_get_at_index s i w)).
Proof. intros <-. split; reflexivity. Qed.

Lemma this_checked_ok c (w : World V) :
  this_world w -> this_world (fst (checkbox_isChecked c w)).
Proof. intros <-. reflexivity. Qed.

(** With an index below 1 the first read of the cycle is at a negative
    position and its error ends the cycle. *)
Lemma refresh_raises :
  current_index st <= 0 ->
  result_of (refresh st boxes) = Raise OutOfRangeError /\
  log_of (refresh st boxes) =
  [Call_get_simulation_index (current_index st);
   SetText (format (current_index st - 1));
   Call_get_at_index time (current_index st - 1) (Raise OutOfRangeError)].
Proof.
  intros Hi.
  assert (E : read_field (current_index st - 1) time st
              = Raise OutOfRangeError)
    by (apply read_field_outside; unfold current_index in *; lia).
  enough (Hp : post this_world signalPlotRefresh
                 (fun l r =>
                    r = Raise OutOfRangeError /\
                    l = [Call_get_simulation_index (current_index st);
                         SetText (format (current_index st - 1));
                         Call_get_at_index time (current_index st - 1)
                                           (Raise OutOfRangeError)]))
    by exact (Hp w0 eq_refl).
  unfold signalPlotRefresh, textboxSimulationIndex_setText,
    get_time_at_index.
  apply post_index with (index_spec := this_index); [exact this_index_ok|].
  intros r ->. apply post_emit.
  apply post_read with (read_spec := this_read); [exact this_read_ok|].
  intros r ->. rewrite E. split; reflexivity.
Qed.

(** *** A cycle whose reads are all inside the published range *)

Local Abbreviation inside := (SpecWindow.inside st).
Local Abbreviation inner := (SpecWindow.inner st).
Local Abbreviation column := (SpecWindow.column st).
Local Abbreviation completes := (SpecWindow.completes st).

Hypothesis index_positive : 1 <= current_index st.
Hypothesis reads_succeed : forall i s,
  0 <= i <= current_index st - 1 -> exists v, read_field i s st = Ok v.

Lemma read_indices_app (l l' : list (Event V)) :
  read_indices (l ++ l') = read_indices l ++ read_indices l'.
Proof.
  induction l as [|e l IH]; [reflexivity|].
  destruct e; simpl; congruence.
Qed.

Lemma inner_reads (l : list (Event V)) :
  Forall inner l -> Forall inside (read_indices l) /\ plotted p1 l = [].
Proof.
  induction 1 as [|e l He _ [IH1 IH2]]; [split; constructor|].
  destruct e; simpl in *; auto. contradiction.
Qed.

Lemma outer_reads (l : list (Event V)) :
  Forall outer l -> read_indices l = [] /\ plotted p1 l = [].
Proof.
  induction 1 as [|e l He _ [IH1 IH2]]; [split; reflexivity|].
  destruct e; simpl in *; auto; try contradiction.
  destruct p; simpl in *; auto. contradiction.
Qed.

Lemma completes_frame x y (l l' : list (Event V)) r :
  Forall inner l -> completes x y l' r -> completes x y (l ++ l') r.
Proof.
  intros Hl (Hr & Hi & Hp). destruct (inner_reads Hl) as [Hi' Hp'].
  repeat split; auto.
  - rewrite read_indices_app. apply Forall_app. auto.
  - rewrite plotted_app, Hp'. exact Hp.
Qed.

Ltac this_step :=
  lazymatch goal with
  | |- hoare _ (bind _ _) _ _ _ =>
      apply hoare_bind with (R := fun _ => True); [|intros ? _]
  | |- hoare _ (get_at_index ?s ?i) _ _ _ =>
      apply hoare_read with (read_spec := this_read);
      [ exact this_read_ok
      | let v := fresh "v" in
        let Ev := fresh "Ev" in
        intros ? ->;
        destruct (reads_succeed (i := i) s) as [v Ev];
        [ unfold SpecWindow.inside, current_index in *; lia
        | rewrite Ev; split; simpl; unfold SpecWindow.inside, current_index in *;
          first [exact Logic.I | lia | reflexivity] ] ]
  | |- hoare _ (isChecked _) _ _ _ =>
      apply hoare_checked; [exact this_checked_ok|intros ?; split; side]
  | |- hoare _ (emit _) _ _ _ => apply hoare_emit; side
  | |- hoare _ (if _ then _ else _) _ _ _ => apply hoare_if
  | |- hoare _ (ret _) _ _ _ => apply hoare_ret
  end.

(** The loop over positions inside the range fills [_time] with the time
    column at these positions. *)
Lemma for_z_in_column x (ls : Lists V) :
  Forall inside x ->
  hoare this_world (for_z_in x ls) inner
        (fun ls' => _time ls' = _time ls ++ column time x)
        (fun _ => False).
Proof.
  intros Hx.
  apply hoare_weaken
    with (R := fun ls' => Forall inside [] /\
                          _time ls' ++ column time []
                          = _time ls ++ column time x).
  2: { intros ls' [_ E]. simpl in E. now rewrite app_nil_r in E. }
  apply (hoare_for_z_in
           (fun rest ls' => Forall inside rest /\
                            _time ls' ++ column time rest
                            = _time ls ++ column time x));
    [|split; [exact Hx|reflexivity]].
  intros z rest ls1 [Hz E]. inversion Hz as [|? ? Hz1 Hz2]; subst.
  slot_unfold.
  apply hoare_bind with (R := fun t => read_field z time st = Ok t).
  { this_step. }
  intros t Et. repeat this_step.
  split; [exact Hz2|]. simpl.
  rewrite <- E, <- app_assoc. simpl. rewrite Et. reflexivity.
Qed.

Lemma refresh_in_range :
  let x := map (fun z => z + 1) (range (current_index st - 1)) in
  completes x (column time x)
            (log_of (refresh st boxes)) (result_of (refresh st boxes)).
Proof.
  cbv zeta.
  set (x := map (fun z => z + 1) (range (current_index st - 1))).
  enough (Hp : post this_world signalPlotRefresh
                 (completes x (column time x)))
    by exact (Hp w0 eq_refl).
  unfold signalPlotRefresh at 1.
  apply post_index with (index_spec := this_index); [exact this_index_ok|].
  intros r ->. fold x.
  match goal with
  | |- post _ ?c _ =>
      enough (Hq : post this_world c (completes x (column time x)))
  end.
  { intros w Hw. destruct (Hq w Hw) as (Hr & Hi & Hpl).
    repeat split; auto. }
  slot_unfold.
  repeat
    lazymatch goal with
    | |- post _ (bind (for_z_in _ _) _) _ => fail
    | |- post _ (bind _ _) _ =>
        apply post_frame
          with (P := inner) (R := fun _ => True) (E := fun _ => False);
        [ repeat this_step
        | intros ? ? ? ? ?; apply completes_frame; assumption
        | intros ? ? _ []
        | intros ? _ ]
    end.
  apply post_frame
    with (P := inner) (R := fun ls => _time ls = column time x)
         (E := fun _ => False);
    [ apply (@for_z_in_column x empty_lists)
    | intros ? ? ? ? ?; apply completes_frame; assumption
    | intros ? ? _ []
    | intros ls Hls ].
  { apply Forall_forall. intros z Hz. apply range_bound in Hz.
    unfold SpecWindow.inside, current_index in *. lia. }
  apply post_emit. rewrite Hls.
  match goal with
  | |- post _ ?c _ =>
      assert (Ht : hoare this_world c outer (fun _ => True) (fun _ => False))
        by repeat this_step
  end.
  eapply hoare_post; [exact Ht|].
  intros l r Hl Hr. destruct (outer_reads Hl) as [Hi Hp].
  destruct r as [[]|e]; [|destruct Hr].
  repeat split; simpl; rewrite ?Hi, ?Hp; auto.
Qed.

End StandingStore.

End SpecWindowFacts.

(** ** The claims on the refresh cycle over the store of the specification *)

Module RefreshClaims.
Import Window SpecWindow WindowFacts SpecWindowFacts.
Import Store StoreFacts.

Example refresh_after_five_commits :
  let o := refresh (committed (scenario_records (fun _ _ => 7) 5))
                   (fun _ => false) in
  result_of o = Ok tt /\
  hd_error (log_of o) = Some (Call_get_simulation_index 4) /\
  plotted p1 (log_of o) = [([1; 2; 3], [1; 2; 3])] /\
  read_indices (log_of o) =
  [3; 3; 3; 3; 3; 3; 1; 1; 1; 1; 1; 1; 2; 2; 2; 2; 2; 2; 3; 3; 3; 3; 3; 3].
Proof. repeat split. Qed.








(** C3, as the code has it.  The slot does not handle the store's error.
    With [current_index() <= 0] the first read of the cycle is at the
    negative position [current_index() - 1], it is the only read, and its
    [OutOfRangeError] is the outcome of the cycle.  With
    [current_index() >= 1] the cycle completes and all its reads are at
    positions from 0 to [current_index() - 1]. *)
Theorem refresh_out_of_range_propagates
  (V : Type) (recs : list (Series -> V)) (k : nat) (boxes : Checkbox -> bool) :
  let st := observed recs k in
  let o := refresh st boxes in
  if current_index st <=? 0 then
    result_of o = Raise OutOfRangeError /\
    read_indices (log_of o) = [current_index st - 1]
  else
    result_of o = Ok tt /\
    Forall (fun i => 0 <= i <= current_index st - 1) (read_indices (log_of o)).
Proof.
  cbv zeta. destruct (Z.leb_spec (current_index (observed recs k)) 0) as [Hi|Hi].
  - destruct (@refresh_raises V (observed recs k) boxes Hi) as [Hr Hl].
    split; [exact Hr|]. rewrite Hl. reflexivity.
  - destruct (@refresh_in_range V (observed recs k) boxes) as (Hr & Hf & _).
    + lia.
    + intros i s Hrange.
      destruct (@worker_reads V recs k i s) as (r & _ & E);
        [unfold current_index in *; lia|].
      exists (r s). exact E.
    + split; assumption.
Qed.

(** C3 as stated fails: on the store of a new run the cycle reads at
    position -2 and ends with the store's error. *)
Lemma refresh_on_new_store_raises :
  let o := refresh (@new_store Z) (fun _ => false) in
  result_of o = Raise OutOfRangeError /\
  read_indices (log_of o) = [-2].
Proof. split; reflexivity. Qed.

(** A cycle that finds the Battery Power box checked, for C10. *)
Lemma battery_power_plot_has_empty_y_witness :
  let w := mkWorld (committed (scenario_records (fun _ _ => 0) 5))
                   (fun _ => true) in
  plotted p6 (log_of (signalPlotRefresh w)) = [([1; 2; 3], [])] /\
  Z.of_nat (length [1; 2; 3]) = Z.max 0 3 /\
  (0 < 3 -> length [1; 2; 3] <> length (@nil Z)).
Proof.
  apply (@battery_power_plot_has_empty_y Z (World Z) _
           (mkWorld (committed (scenario_records (fun _ _ => 0) 5))
                    (fun _ => true)) 4).
  - reflexivity.
  - vm_compute. repeat (first [left; reflexivity | right]).
Defined.

End RefreshClaims.

(** ** The ticker *)

Module TickerFacts.
Import Ticker.

Lemma run_unfold fuel self :
  run (S fuel) self =
  (loop_body self ++ fst (run fuel self), snd (run fuel self)).
Proof. simpl. destruct (run fuel self). reflexivity. Qed.

Lemma ticks_app a b : ticks (a ++ b) = (ticks a + ticks b)%nat.
Proof. unfold ticks. now rewrite filter_app, length_app. Qed.

Lemma signalPlotRefresh_first_call V W `{Window.Self V W} (w : W) :
  exists index,
    hd_error (Window.log_of (Window.signalPlotRefresh w))
    = Some (Window.Call_get_simulation_index index).
Proof.
  unfold Window.signalPlotRefresh, Window.bind at 1,
    Window.get_simulation_index.
  destruct (Window.data_store_get_simulation_index w) as [w' index].
  exists index.
  match goal with
  | |- context [match ?c w' with _ => _ end] => destruct (c w') as [[? ?] ?]
  end.
  reflexivity.
Qed.

(** C6.  [run], followed for any number of iterations, does nothing but
    request a suspension of 0.25 s, that is 250 ms, and emit
    [plotRefreshTimingSignal], in turn; the emission has no argument, and
    each cycle it starts begins by asking the store for its index. *)
Theorem run_sleeps_250ms_then_emits
  (V W : Type) `{Window.Self V W} (fuel : nat)
  (self : PlotRefreshTimingThread) (w : W) :
  let acts := fst (run fuel self) in
  acts = concat (repeat [time_sleep 0.25; plotRefreshTimingSignal_emit] fuel)
  /\ Forall (fun a => match a with
                      | time_sleep seconds => milliseconds seconds == 250
                      | plotRefreshTimingSignal_emit => True
                      end)%Q acts
  /\ length (deliver acts w) = fuel
  /\ Forall (fun l => exists index,
                 hd_error l = Some (Window.Call_get_simulation_index index))
            (deliver acts w).
Proof.
  cbv zeta.
  assert (Ha : fst (run fuel self)
               = concat (repeat [time_sleep 0.25;
                                 plotRefreshTimingSignal_emit] fuel)).
  { induction fuel as [|fuel IH]; [reflexivity|].
    rewrite run_unfold. simpl. now rewrite IH. }
  rewrite Ha. clear Ha. split; [reflexivity|].
  split; [|revert w; induction fuel as [|fuel IH]; intros w].
  - induction fuel as [|fuel IH]; simpl; [constructor|].
    constructor; [reflexivity|]. constructor; [exact Logic.I|exact IH].
  - split; constructor.
  - simpl.
    destruct (signalPlotRefresh_first_call w) as [index Hhd].
    unfold Window.log_of in Hhd.
    destruct (Window.signalPlotRefresh w) as [[w' l] r]. simpl in Hhd.
    destruct (IH w') as [Hlen Hall].
    split; [simpl; now rewrite Hlen|].
    constructor; [exists index; exact Hhd|exact Hall].
Qed.

(** C2, on the code.  [run] never returns, whatever [exiting] is: followed
    for any number of iterations it is still in its loop and has emitted one
    tick per iteration; so [__del__], which sets [exiting] and waits for
    [run], does not return either. *)
Theorem run_ignores_exiting (fuel : nat) (self : PlotRefreshTimingThread) :
  snd (run fuel self) = false /\
  ticks (fst (run fuel self)) = fuel /\
  __del__ fuel self = None.
Proof.
  assert (Hr : forall s, snd (run fuel s) = false).
  { intros s. induction fuel as [|f IH]; [reflexivity|].
    rewrite run_unfold. exact IH. }
  split; [apply Hr|]. split.
  - induction fuel as [|f IH]; [reflexivity|].
    rewrite run_unfold. cbn [fst]. rewrite ticks_app, IH; [reflexivity|].
    intros s. specialize (Hr s). rewrite run_unfold in Hr. exact Hr.
  - unfold __del__, wait. rewrite Hr. reflexivity.
Qed.

Example three_ticks_after_exiting_is_set :
  run 3 {| exiting := true |} =
  ([time_sleep 0.25; plotRefreshTimingSignal_emit;
    time_sleep 0.25; plotRefreshTimingSignal_emit;
    time_sleep 0.25; plotRefreshTimingSignal_emit], false).
Proof. reflexivity. Qed.

End TickerFacts.

(** ** The worker's control surface *)

Module WorkerFacts.
Import Worker.

(** C9.  [start()] in [Running] changes nothing; [stop()] leads to
    [Stopped] from every state; no command leaves [Stopped]; and every
    command, given twice, does what it does given once.  The same holds of
    the two buttons of the window. *)
Theorem control_idempotent_and_stop_terminal (c : Command) (s : State) :
  control start Running = Running /\
  control stop s = Stopped /\
  control c Stopped = Stopped /\
  control c (control c s) = control c s /\
  clicked buttonRun Running = Running /\
  clicked buttonStop s = Stopped.
Proof. destruct c, s; repeat split. Qed.

End WorkerFacts.

(** ** The shape of a refresh cycle, whatever the store answers *)

Module CycleFacts.
Import Window WindowFacts Cycle.

Section Shape.

Context {V W : Type} `{Self V W}.

Local Abbreviation post := (@Window.post V W _ (fun _ : W => True)).
Local Abbreviation no_spec := (fun (_ : Series) (_ : Z) (_ : result V) => True).

Lemma post_ret A (a : A) (Q : _ -> _ -> Prop) : Q [] (Ok a) -> post (ret a) Q.
Proof. intros HQ w _. exact HQ. Qed.

Lemma post_seq A B (c : M V W A) (k : A -> M V W B)
  (Q1 : list (Event V) -> result A -> Prop) (Q : _ -> _ -> Prop) :
  post c Q1 ->
  (forall l e, Q1 l (Raise e) -> Q l (Raise e)) ->
  (forall l a, Q1 l (Ok a) -> post (k a) (fun l' r' => Q (l ++ l') r')) ->
  post (bind c k) Q.
Proof.
  intros Hc HE Hk w _. unfold bind. specialize (Hc w Logic.I).
  destruct (c w) as [[w1 l1] [a|e]]; open_run.
  - specialize (Hk l1 a Hc w1 Logic.I).
    destruct (k a w1) as [[w2 l2] r]; open_run. exact Hk.
  - auto.
Qed.

Lemma post_weaken A (c : M V W A) (Q1 Q : _ -> _ -> Prop) :
  post c Q1 -> (forall l r, Q1 l r -> Q l r) -> post c Q.
Proof. intros Hc HQ w Hw. apply HQ, Hc, Hw. Qed.

(** A statement that only draws. *)
Lemma post_emits B (c : M V W unit) es (k : unit -> M V W B)
  (Q : _ -> _ -> Prop) :
  (forall w, c w = (w, es, Ok tt)) ->
  post (k tt) (fun l r => Q (es ++ l) r) ->
  post (bind c k) Q.
Proof.
  intros Hc Hk w _. unfold bind. rewrite Hc. specialize (Hk w Logic.I).
  destruct (k tt w) as [[w2 l2] r]; open_run. exact Hk.
Qed.

Lemma post_if_emits B (b : bool) (c1 c2 : M V W unit) es1 es2
  (k : unit -> M V W B) (Q : _ -> _ -> Prop) :
  (forall w, c1 w = (w, es1, Ok tt)) ->
  (forall w, c2 w = (w, es2, Ok tt)) ->
  post (k tt) (fun l r => Q ((if b then es1 else es2) ++ l) r) ->
  post (bind (if b then c1 else c2) k) Q.
Proof. destruct b; intros H1 H2; [apply post_emits, H1|apply post_emits, H2]. Qed.

Lemma post_if_emits_last (b : bool) (c1 c2 : M V W unit) es1 es2
  (Q : _ -> _ -> Prop) :
  (forall w, c1 w = (w, es1, Ok tt)) ->
  (forall w, c2 w = (w, es2, Ok tt)) ->
  Q (if b then es1 else es2) (Ok tt) ->
  post (if b then c1 else c2) Q.
Proof.
  intros H1 H2 HQ w _. destruct b; [rewrite H1|rewrite H2]; exact HQ.
Qed.

Lemma fails_last e s i : fails_at e [Call_get_at_index (V := V) s i (Raise e)].
Proof. exists [], s, i. split; [reflexivity|constructor]. Qed.

Lemma fails_cons e a (l : list (Event V)) :
  before_failure a -> fails_at e l -> fails_at e (a :: l).
Proof.
  intros Ha (l0 & s & i & -> & Hl). exists (a :: l0), s, i.
  split; [reflexivity|constructor; assumption].
Qed.

Lemma fails_app e (l l' : list (Event V)) :
  Forall before_failure l -> fails_at e l' -> fails_at e (l ++ l').
Proof.
  induction 1 as [|a l Ha _ IH]; intros Hl'; [exact Hl'|].
  simpl. apply fails_cons; auto.
Qed.

Ltac read_step :=
  apply post_read with (read_spec := no_spec);
  [ intros; split; exact Logic.I
  | intros [?|?] _;
    [|repeat (apply fails_cons; [simpl; first [exact Logic.I|discriminate]|]);
      apply fails_last] ].

(** One iteration of the loop: six reads that succeed, or a failing read. *)
Lemma append_at_shape z (ls : Lists V) :
  post (append_at z ls)
       (fun l r => match r with
                   | Ok ls' => exists row, l = row_events z row /\
                                           ls' = extend ls [row]
                   | Raise e => fails_at e l
                   end).
Proof.
  slot_unfold. do 6 read_step.
  apply post_ret.
  match goal with
  | t : V, d : V, v : V, mv : V, a : V, mp : V |- _ =>
      exists (mkRow t d v mv a mp); split; reflexivity
  end.
Qed.

Lemma row_events_before z (r : Row V) :
  Forall before_failure (row_events z r).
Proof. repeat constructor. Qed.

Lemma extend_cons (ls : Lists V) row rows :
  extend (extend ls [row]) rows = extend ls (row :: rows).
Proof. unfold extend. simpl. now rewrite <- !app_assoc. Qed.

(** The loop: one row of reads per position, or a failing read. *)
Lemma for_z_in_shape x :
  forall ls : Lists V,
    post (for_z_in x ls)
         (fun l r => match r with
                     | Ok ls' => exists rows,
                                   length rows = length x /\
                                   l = loop_events x rows /\
                                   ls' = extend ls rows
                     | Raise e => fails_at e l
                     end).
Proof.
  induction x as [|z x IH]; intros ls; simpl.
  - apply post_ret. exists []. repeat split.
    unfold extend. destruct ls; simpl. now rewrite !app_nil_r.
  - eapply post_seq; [apply append_at_shape|auto|].
    intros l ls' (row & -> & ->).
    eapply post_weaken; [apply IH|].
    intros l' [ls''|e].
    + intros (rows & Hlen & -> & ->). exists (row :: rows).
      split; [simpl; now rewrite Hlen|].
      split; [reflexivity|apply extend_cons].
    + apply fails_app, row_events_before.
Qed.

Ltac draw_step :=
  lazymatch goal with
  | |- Window.post _ (bind (emit _) _) _ => apply post_emit
  | |- Window.post _ (bind (isChecked _) _) _ =>
      apply post_checked; [intros; exact Logic.I|intros ?]
  | |- Window.post _ (bind (if _ then _ else _) _) _ =>
      eapply post_if_emits; [intros; reflexivity|intros; reflexivity|]
  end.

(** Every cycle has the shape its result says: all the reads, the plot on
    [p1] and the five tests if it completes; the reads up to the failing one
    and nothing more if it raises. *)
Lemma signalPlotRefresh_shape (w : W) :
  cycle_shape (log_of (signalPlotRefresh w))
              (result_of (signalPlotRefresh w)).
Proof.
  revert w.
  enough (Hp : post signalPlotRefresh cycle_shape)
    by (intros w; exact (Hp w Logic.I)).
  unfold signalPlotRefresh at 1.
  apply post_index with (index_spec := fun _ => True);
    [intros; split; exact Logic.I|].
  intros index _. apply post_emit.
  match goal with
  | |- Window.post _ ?c _ =>
      enough (Hq : post c
                     (fun l r =>
                        match r with
                        | Ok _ =>
                            exists sh rows a,
                              length rows = length (positions index) /\
                              l = shown_events (index - 1) sh
                                  ++ loop_events (positions index) rows
                                  ++ plot_events (positions index) rows a
                        | Raise e => fails_at e l
                        end))
  end.
  { eapply post_weaken; [exact Hq|].
    intros l [u|e].
    - intros (sh & rows & a & Hlen & ->). exists index, sh, rows, a.
      split; [exact Hlen|reflexivity].
    - intros Hf. exists index, l. split; [reflexivity|exact Hf]. }
  slot_unfold. fold (positions index).
  read_step. apply post_emit.
  read_step. apply post_emit.
  read_step. apply post_emit.
  read_step. apply post_emit.
  read_step. apply post_emit.
  read_step. apply post_emit.
  eapply post_seq; [apply for_z_in_shape| |].
  { intros l e Hf. simpl.
    repeat (apply fails_cons; [simpl; first [exact Logic.I|discriminate]|]).
    exact Hf. }
  intros l ls (rows & Hlen & -> & ->).
  repeat draw_step.
  eapply post_if_emits_last; [intros; reflexivity|intros; reflexivity|].
  match goal with
  | t : V, d : V, v : V, a : V, mp : V, bp : V,
    b2 : bool, b3 : bool, b4 : bool, b5 : bool, b6 : bool |- _ =>
      exists (mkShown t d v a mp bp), rows, (mkAnswers b2 b3 b4 b5 b6);
      split; [exact Hlen|reflexivity]
  end.
Qed.

End Shape.

End CycleFacts.

(** ** What the widgets and the store see of a cycle *)

Module CycleObservations.
Import Window WindowFacts Cycle CycleFacts.

Section Observations.

Context {V : Type}.
Implicit Types (l : list (Event V)) (g : Widgets V).

Lemma latest_cons A (d a : A) (ls : list A) : latest d (a :: ls) = latest a ls.
Proof. reflexivity. Qed.

Lemma apply_events_cons e l g :
  apply_events (e :: l) g = apply_events l (apply_event g e).
Proof. reflexivity. Qed.

Lemma index_text_after l : forall g,
  index_text (apply_events l g) = latest (index_text g) (texts l).
Proof.
  induction l as [|e l IH]; intros g; [reflexivity|].
  rewrite apply_events_cons, IH. destruct e; reflexivity.
Qed.

Lemma spin_value_after sp l : forall g,
  spin_value (apply_events l g) sp
  = latest (spin_value g sp) (map Some (values sp l)).
Proof.
  induction l as [|e l IH]; intros g; [reflexivity|].
  rewrite apply_events_cons, IH. destruct e; try reflexivity.
  unfold values. simpl.
  destruct (Spinbox_eq_dec sp0 sp) as [->|Hne]; simpl.
  - destruct (Spinbox_eq_dec sp sp); [reflexivity|congruence].
  - destruct (Spinbox_eq_dec sp sp0); [congruence|reflexivity].
Qed.

Lemma visible_after p l : forall g,
  visible (apply_events l g) p = latest (visible g p) (shows p l).
Proof.
  induction l as [|e l IH]; intros g; [reflexivity|].
  rewrite apply_events_cons, IH. destruct e; try reflexivity;
    unfold shows; simpl;
    (destruct (PlotItem_eq_dec p0 p) as [->|Hne]; simpl;
     [ destruct (PlotItem_eq_dec p p); [reflexivity|congruence]
     | destruct (PlotItem_eq_dec p p0); [congruence|reflexivity] ]).
Qed.

Lemma curves_on_after p l : forall g,
  curves_on (apply_events l g) p = curves_on g p ++ plotted p l.
Proof.
  induction l as [|e l IH]; intros g; [simpl; now rewrite app_nil_r|].
  rewrite apply_events_cons, IH. destruct e; try reflexivity.
  simpl. destruct (PlotItem_eq_dec p0 p) as [->|Hne].
  - destruct (PlotItem_eq_dec p p); [|congruence].
    now rewrite <- app_assoc.
  - destruct (PlotItem_eq_dec p p0); [congruence|reflexivity].
Qed.

(** The loop only reads. *)
Lemma loop_events_reads x : forall rows : list (Row V),
  length rows = length x ->
  reads (loop_events x rows)
  = flat_map (fun z => map (fun s => (s, z)) loop_series) x.
Proof.
  induction x as [|z x IH]; intros [|r rows] Hlen; try discriminate;
    [reflexivity|].
  injection Hlen as Hlen. specialize (IH rows Hlen).
  unfold reads, loop_events in *. simpl. now rewrite IH.
Qed.

Lemma loop_events_returned x : forall rows : list (Row V),
  length rows = length x ->
  returned time (loop_events x rows) = map row_time rows /\
  returned distance (loop_events x rows) = map row_distance rows /\
  returned velocity (loop_events x rows) = map row_velocity rows /\
  returned track_max_velocity (loop_events x rows)
  = map row_max_velocity rows /\
  returned acceleration (loop_events x rows) = map row_acceleration rows /\
  returned motor_power (loop_events x rows) = map row_motor_power rows /\
  returned battery_power (loop_events x rows) = [].
Proof.
  induction x as [|z x IH]; intros [|r rows] Hlen; try discriminate;
    [repeat split|].
  injection Hlen as Hlen.
  destruct (IH rows Hlen) as (H1 & H2 & H3 & H4 & H5 & H6 & H7).
  unfold returned, loop_events in *. simpl.
  rewrite H1, H2, H3, H4, H5, H6, H7. repeat split.
Qed.

Lemma loop_events_silent x : forall rows : list (Row V),
  queries (loop_events x rows) = [] /\
  texts (loop_events x rows) = [] /\
  (forall sp, values sp (loop_events x rows) = []) /\
  (forall p, shows p (loop_events x rows) = []) /\
  (forall p, plotted p (loop_events x rows) = []).
Proof.
  induction x as [|z x IH]; intros [|r rows]; try (repeat split; fail).
  destruct (IH rows) as (H1 & H2 & H3 & H4 & H5).
  unfold queries, texts, values, shows, loop_events in *. simpl.
  repeat split; auto.
Qed.

(** Before its failing read a cycle draws nothing and asks no check box. *)
Lemma before_failure_silent l :
  Forall before_failure l ->
  queries l = [] /\ texts l = [] /\
  values spinboxBatteryEnergy l = [] /\
  (forall p, shows p l = []) /\
  (forall p, plotted p l = []).
Proof.
  induction 1 as [|e l He _ (H1 & H2 & H3 & H4 & H5)]; [repeat split|].
  unfold queries, texts, values, shows in *.
  destruct e; simpl in *; try contradiction; repeat split; auto.
  destruct (Spinbox_eq_dec sp spinboxBatteryEnergy); [contradiction|auto].
Qed.

End Observations.

End CycleObservations.

(** ** Properties of every refresh cycle *)

Module CycleProperties.
Import Window WindowFacts Cycle CycleFacts CycleObservations.

Section Log.

Context {V : Type}.
Implicit Types (l : list (Event V)) (sh : Shown V) (rows : list (Row V))
  (a : Answers).

Lemma reads_app l l' : reads (l ++ l') = reads l ++ reads l'.
Proof. apply flat_map_app. Qed.

Lemma returned_app s l l' :
  returned s (l ++ l') = returned s l ++ returned s l'.
Proof. apply flat_map_app. Qed.

Lemma queries_app l l' : queries (l ++ l') = queries l ++ queries l'.
Proof. apply flat_map_app. Qed.

Lemma texts_app l l' : texts (l ++ l') = texts l ++ texts l'.
Proof. apply flat_map_app. Qed.

Lemma values_app sp l l' : values sp (l ++ l') = values sp l ++ values sp l'.
Proof. apply flat_map_app. Qed.

Lemma shows_app p l l' : shows p (l ++ l') = shows p l ++ shows p l'.
Proof. apply flat_map_app. Qed.

Lemma cycle_log_parts index sh rows a :
  cycle_log index sh rows a
  = (Call_get_simulation_index index
       :: SetText (format (index - 1)) :: shown_events (index - 1) sh)
    ++ loop_events (positions index) rows
    ++ plot_events (positions index) rows a.
Proof. reflexivity. Qed.

Ltac by_answers a := destruct a as [[] [] [] [] []]; reflexivity.

Lemma cycle_log_reads index sh rows a :
  length rows = length (positions index) ->
  reads (cycle_log index sh rows a) = schedule index.
Proof.
  intros Hlen.
  rewrite cycle_log_parts, !reads_app, (@loop_events_reads V _ _ Hlen).
  replace (reads (plot_events (positions index) rows a)) with
    (@nil (Series * Z)) by (by_answers a).
  now rewrite app_nil_r.
Qed.

Lemma cycle_log_queries index sh rows a :
  queries (cycle_log index sh rows a)
  = [(checkboxDistance, distance_checked a);
     (checkboxVelocity, velocity_checked a);
     (checkboxAcceleration, acceleration_checked a);
     (checkboxMotorPower, motor_power_checked a);
     (checkboxBatteryPower, battery_power_checked a)].
Proof.
  rewrite cycle_log_parts, !queries_app.
  rewrite (proj1 (loop_events_silent (positions index) rows)).
  by_answers a.
Qed.

Lemma cycle_log_texts index sh rows a :
  texts (cycle_log index sh rows a) = [format (index - 1)].
Proof.
  rewrite cycle_log_parts, !texts_app.
  rewrite (proj1 (proj2 (loop_events_silent (positions index) rows))).
  by_answers a.
Qed.

Lemma cycle_log_values index sh rows a sp :
  map Some (values sp (cycle_log index sh rows a))
  = match sp with
    | spinboxTime => [Some (shown_time sh)]
    | spinboxDistance => [Some (shown_distance sh)]
    | spinboxVelocity => [Some (shown_velocity sh)]
    | spinboxAcceleration => [Some (shown_acceleration sh)]
    | spinboxMotorPower => [Some (shown_motor_power sh)]
    | spinboxBatteryPower => [Some (shown_battery_power sh)]
    | spinboxBatteryEnergy => []
    end.
Proof.
  rewrite cycle_log_parts, !values_app.
  destruct (loop_events_silent (positions index) rows)
    as (_ & _ & Hv & _). rewrite Hv.
  destruct sp; by_answers a.
Qed.

Lemma cycle_log_shows index sh rows a p :
  shows p (cycle_log index sh rows a)
  = match p with
    | p1 | p7 => []
    | p2 => [distance_checked a]
    | p3 => [velocity_checked a]
    | p4 => [acceleration_checked a]
    | p5 => [motor_power_checked a]
    | p6 => [battery_power_checked a]
    end.
Proof.
  rewrite cycle_log_parts, !shows_app.
  destruct (loop_events_silent (positions index) rows)
    as (_ & _ & _ & Hs & _). rewrite Hs.
  destruct p; by_answers a.
Qed.

Lemma cycle_log_plotted index sh rows a p :
  plotted p (cycle_log index sh rows a)
  = let x := positions index in
    match p with
    | p1 => [(x, map row_time rows)]
    | p2 => if distance_checked a then [(x, map row_distance rows)] else []
    | p3 => if velocity_checked a
            then [(x, map row_max_velocity rows); (x, map row_velocity rows)]
            else []
    | p4 => if acceleration_checked a
            then [(x, map row_acceleration rows)] else []
    | p5 => if motor_power_checked a
            then [(x, map row_motor_power rows)] else []
    | p6 => if battery_power_checked a then [(x, [])] else []
    | p7 => []
    end.
Proof.
  rewrite cycle_log_parts, !plotted_app.
  destruct (loop_events_silent (positions index) rows)
    as (_ & _ & _ & _ & Hp). rewrite Hp.
  destruct p; by_answers a.
Qed.

Lemma cycle_log_returned index sh rows a :
  length rows = length (positions index) ->
  let l := cycle_log index sh rows a in
  returned time l = shown_time sh :: map row_time rows /\
  returned distance l = shown_distance sh :: map row_distance rows /\
  returned velocity l = shown_velocity sh :: map row_velocity rows /\
  returned track_max_velocity l = map row_max_velocity rows /\
  returned acceleration l
  = shown_acceleration sh :: map row_acceleration rows /\
  returned motor_power l = shown_motor_power sh :: map row_motor_power rows /\
  returned battery_power l = [shown_battery_power sh].
Proof.
  intros Hlen. cbv zeta.
  destruct (@loop_events_returned V _ _ Hlen)
    as (H1 & H2 & H3 & H4 & H5 & H6 & H7).
  rewrite cycle_log_parts, !returned_app, H1, H2, H3, H4, H5, H6, H7.
  assert (Hp : forall s, returned s (plot_events (positions index) rows a)
                         = []) by (intros s; by_answers a).
  rewrite !Hp, !app_nil_r. repeat split.
Qed.

Lemma schedule_length index :
  Z.of_nat (length (schedule index)) = 6 + 6 * Z.max 0 (index - 1).
Proof.
  unfold schedule. rewrite length_app, length_map.
  assert (Hf : forall x : list Z,
             length (flat_map (fun z => map (fun s => (s, z)) loop_series) x)
             = (6 * length x)%nat).
  { induction x as [|z x IH]; [reflexivity|].
    cbn [flat_map]. rewrite length_app, IH, length_map. simpl. lia. }
  rewrite Hf. pose proof (length_positions (index - 1)) as Hl.
  fold (positions index) in Hl. simpl length. lia.
Qed.

End Log.

Section Properties.

Context {V W : Type} `{Self V W}.
Implicit Types (w : W) (g : Widgets V).

Lemma completed_shape w :
  result_of (signalPlotRefresh w) = Ok tt ->
  exists index sh rows a,
    length rows = length (positions index) /\
    log_of (signalPlotRefresh w) = cycle_log index sh rows a.
Proof.
  intros Hr. pose proof (signalPlotRefresh_shape w) as Hs.
  rewrite Hr in Hs. exact Hs.
Qed.

Lemma raised_shape w e :
  result_of (signalPlotRefresh w) = Raise e ->
  exists index l0 s i,
    log_of (signalPlotRefresh w)
    = [Call_get_simulation_index index; SetText (format (index - 1))]
      ++ l0 ++ [Call_get_at_index s i (Raise e)] /\
    Forall before_failure l0.
Proof.
  intros Hr. pose proof (signalPlotRefresh_shape w) as Hs.
  rewrite Hr in Hs. destruct Hs as (index & l' & Hl & l0 & s & i & -> & Hb).
  exists index, l0, s, i. split; [exact Hl|exact Hb].
Qed.

(** X1.  A cycle that completes reads the six series of the spin boxes at
    [index - 1] and then, for each position from 1 to [index - 1], the six
    series of the loop, in this order and nothing else: [6 + 6 * (index - 1)]
    reads for a positive [index - 1]. *)
Theorem completed_cycle_reads w :
  result_of (signalPlotRefresh w) = Ok tt ->
  let l := log_of (signalPlotRefresh w) in
  exists index,
    hd_error l = Some (Call_get_simulation_index index) /\
    reads l = schedule index /\
    Z.of_nat (length (reads l)) = 6 + 6 * Z.max 0 (index - 1).
Proof.
  intros Hr. destruct (completed_shape w Hr) as (index & sh & rows & a & Hlen & Hl).
  cbv zeta. rewrite Hl. exists index.
  split; [reflexivity|].
  rewrite (@cycle_log_reads V index sh rows a Hlen).
  split; [reflexivity|apply schedule_length].
Qed.

(** X2.  A cycle that raises ends with the read that failed, and the
    exception is the one of that read.  It has asked no check box and called
    no plot: the plots are as visible as before and hold the same curves. *)
Theorem failed_cycle_draws_nothing w e g p :
  result_of (signalPlotRefresh w) = Raise e ->
  let l := log_of (signalPlotRefresh w) in
  (exists l0 s i, l = l0 ++ [Call_get_at_index s i (Raise e)]) /\
  queries l = [] /\
  plotted p l = [] /\
  visible (apply_events l g) p = visible g p /\
  curves_on (apply_events l g) p = curves_on g p.
Proof.
  intros Hr. destruct (raised_shape w Hr) as (index & l0 & s & i & Hl & Hb).
  cbv zeta. rewrite visible_after, curves_on_after, Hl.
  destruct (before_failure_silent Hb) as (Hq & _ & _ & Hs & Hp).
  rewrite !queries_app, !shows_app, !plotted_app, Hq, Hs, Hp.
  split.
  { exists ([Call_get_simulation_index index; SetText (format (index - 1))]
              ++ l0), s, i.
    now rewrite <- app_assoc. }
  repeat split. simpl. apply app_nil_r.
Qed.

(** X3.  Every cycle, also one that then raises, first writes the index it
    took from the store, minus one, into the index text box, and writes
    nothing else there. *)
Theorem index_text_after_cycle w g :
  let l := log_of (signalPlotRefresh w) in
  exists index,
    hd_error l = Some (Call_get_simulation_index index) /\
    texts l = [format (index - 1)] /\
    index_text (apply_events l g) = format (index - 1).
Proof.
  cbv zeta. rewrite index_text_after.
  destruct (result_of (signalPlotRefresh w)) as [[]|e] eqn:Hr.
  - destruct (completed_shape w Hr) as (index & sh & rows & a & _ & ->).
    exists index. rewrite cycle_log_texts. repeat split.
  - destruct (raised_shape w Hr) as (index & l0 & s & i & -> & Hb).
    exists index.
    destruct (before_failure_silent Hb) as (_ & Ht & _).
    rewrite !texts_app, Ht. repeat split.
Qed.

(** X4.  In a cycle that completes, [setValue] is called exactly once on
    each of the six spin boxes in use, and its argument is the first value
    the store returned for the box's series in the cycle (the read at
    [index - 1]), whatever the loop read afterwards; [setValue] is not
    called on the Battery Energy spin box.  This is about the argument of
    the call, not about what the box then displays. *)
Theorem spin_boxes_are_given_first_reads w sp :
  result_of (signalPlotRefresh w) = Ok tt ->
  let l := log_of (signalPlotRefresh w) in
  match series_of_spinbox sp with
  | Some s => exists v, values sp l = [v] /\ hd_error (returned s l) = Some v
  | None => values sp l = []
  end.
Proof.
  intros Hr.
  destruct (completed_shape w Hr) as (index & sh & rows & a & Hlen & Hl).
  cbv zeta. rewrite Hl.
  pose proof (cycle_log_values index sh rows a sp) as Hv.
  destruct (@cycle_log_returned V index sh rows a Hlen)
    as (H1 & H2 & H3 & H4 & H5 & H6 & H7).
  destruct sp; cbn [series_of_spinbox];
    rewrite ?H1, ?H2, ?H3, ?H5, ?H6, ?H7;
    destruct (values _ (cycle_log index sh rows a)) as [|v [|v' vs]];
    try discriminate Hv; try reflexivity;
    injection Hv as ->; eexists; split; reflexivity.
Qed.

(** X5.  In a cycle that completes, every call to [plot] on a plot other
    than [p6] has an [x] and a [y] of the same length. *)
Theorem plots_have_matching_lengths w p x y :
  result_of (signalPlotRefresh w) = Ok tt ->
  p <> p6 ->
  In (x, y) (plotted p (log_of (signalPlotRefresh w))) ->
  length x = length y.
Proof.
  intros Hr Hp.
  destruct (completed_shape w Hr) as (index & sh & rows & a & Hlen & ->).
  rewrite cycle_log_plotted. cbv zeta.
  destruct p; try congruence; destruct a as [[] [] [] [] []]; simpl;
    intros Hin;
    repeat match goal with
           | Hin : _ \/ _ |- _ => destruct Hin as [Hin|Hin]
           | Hin : (_, _) = (_, _) |- _ => injection Hin as <- <-
           | Hin : False |- _ => destruct Hin
           end;
    now rewrite length_map.
Qed.

(** X6.  In a cycle that completes, the curve drawn on [p1], [p2], [p4] or
    [p5] is over the positions [1 .. index - 1] and its [y] is what the
    store returned for the plot's series in the loop, in order: all the
    values returned for the series but the first one, which went to the spin
    box. *)
Theorem plots_show_what_the_store_returned w p s x y :
  result_of (signalPlotRefresh w) = Ok tt ->
  series_of_plot p = Some s ->
  In (x, y) (plotted p (log_of (signalPlotRefresh w))) ->
  let l := log_of (signalPlotRefresh w) in
  y = skipn 1 (returned s l) /\
  exists index,
    hd_error l = Some (Call_get_simulation_index index) /\
    x = positions index.
Proof.
  intros Hr Hs.
  destruct (completed_shape w Hr) as (index & sh & rows & a & Hlen & ->).
  rewrite cycle_log_plotted. cbv zeta.
  destruct (@cycle_log_returned V index sh rows a Hlen)
    as (H1 & H2 & H3 & H4 & H5 & H6 & H7).
  destruct p; try discriminate; injection Hs as <-;
    rewrite ?H1, ?H2, ?H5, ?H6;
    destruct a as [[] [] [] [] []]; simpl;
    intros Hin;
    repeat match goal with
           | Hin : _ \/ _ |- _ => destruct Hin as [Hin|Hin]
           | Hin : (_, _) = (_, _) |- _ => injection Hin as <- <-
           | Hin : False |- _ => destruct Hin
           end;
    (split; [reflexivity|exists index; split; reflexivity]).
Qed.

(** X7.  In a cycle that finds the Velocity box checked, [p3] gets two
    curves over the same positions: the track's maximum velocity, as the
    store returned it in the loop, and then the velocity. *)
Theorem velocity_plot_has_two_curves w :
  In (checkboxVelocity, true) (queries (log_of (signalPlotRefresh w))) ->
  let l := log_of (signalPlotRefresh w) in
  exists index,
    hd_error l = Some (Call_get_simulation_index index) /\
    plotted p3 l = [(positions index, returned track_max_velocity l);
                    (positions index, skipn 1 (returned velocity l))].
Proof.
  cbv zeta.
  destruct (result_of (signalPlotRefresh w)) as [[]|e] eqn:Hr.
  - destruct (completed_shape w Hr) as (index & sh & rows & a & Hlen & ->).
    rewrite cycle_log_queries, cycle_log_plotted.
    destruct (@cycle_log_returned V index sh rows a Hlen)
      as (_ & _ & H3 & H4 & _). rewrite H3, H4.
    intros Hin. exists index. split; [reflexivity|].
    destruct a as [b2 [] b4 b5 b6]; [reflexivity|].
    simpl in Hin.
    repeat match goal with
           | Hin : _ \/ _ |- _ => destruct Hin as [Hin|Hin]
           end; try discriminate Hin; destruct Hin.
  - destruct (raised_shape w Hr) as (index & l0 & s & i & -> & Hb).
    destruct (before_failure_silent Hb) as (Hq & _).
    rewrite !queries_app, Hq. intros [].
Qed.

(** X8.  After a cycle, each of the plots [p2] to [p6] is visible exactly
    if the cycle found its check box checked. *)
Theorem visibility_follows_check_boxes w g p c b :
  checkbox_of_plot p = Some c ->
  In (c, b) (queries (log_of (signalPlotRefresh w))) ->
  visible (apply_events (log_of (signalPlotRefresh w)) g) p = b.
Proof.
  intros Hc. rewrite visible_after.
  destruct (result_of (signalPlotRefresh w)) as [[]|e] eqn:Hr.
  - destruct (completed_shape w Hr) as (index & sh & rows & a & Hlen & ->).
    rewrite cycle_log_queries, cycle_log_shows.
    destruct p; try discriminate; injection Hc as <-; simpl; intros Hin;
      repeat match goal with
             | Hin : _ \/ _ |- _ => destruct Hin as [Hin|Hin]
             end; try discriminate Hin; try (destruct Hin; fail);
      injection Hin as <-; reflexivity.
  - destruct (raised_shape w Hr) as (index & l0 & s & i & -> & Hb).
    destruct (before_failure_silent Hb) as (Hq & _).
    rewrite !queries_app, Hq. intros [].
Qed.

(** X9.  A cycle that completes asks the Distance, Velocity, Acceleration,
    Motor Power and Battery Power boxes, once each and in this order; a cycle
    that raises asks none.  The Time and Battery Energy boxes are never
    asked. *)
Theorem check_boxes_asked w :
  map fst (queries (log_of (signalPlotRefresh w)))
  = match result_of (signalPlotRefresh w) with
    | Ok _ => [checkboxDistance; checkboxVelocity; checkboxAcceleration;
               checkboxMotorPower; checkboxBatteryPower]
    | Raise _ => []
    end.
Proof.
  destruct (result_of (signalPlotRefresh w)) as [[]|e] eqn:Hr.
  - destruct (completed_shape w Hr) as (index & sh & rows & a & Hlen & ->).
    rewrite cycle_log_queries. reflexivity.
  - destruct (raised_shape w Hr) as (index & l0 & s & i & -> & Hb).
    destruct (before_failure_silent Hb) as (Hq & _).
    rewrite !queries_app, Hq. reflexivity.
Qed.

(** What no cycle touches. *)
Lemma cycle_keeps w g :
  let g' := apply_events (log_of (signalPlotRefresh w)) g in
  visible g' p1 = visible g p1 /\
  visible g' p7 = visible g p7 /\
  curves_on g' p7 = curves_on g p7 /\
  spin_value g' spinboxBatteryEnergy = spin_value g spinboxBatteryEnergy.
Proof.
  cbv zeta. rewrite !visible_after, curves_on_after, spin_value_after.
  destruct (result_of (signalPlotRefresh w)) as [[]|e] eqn:Hr.
  - destruct (completed_shape w Hr) as (index & sh & rows & a & Hlen & ->).
    rewrite !cycle_log_shows, cycle_log_plotted, cycle_log_values.
    repeat split; simpl; rewrite ?app_nil_r; reflexivity.
  - destruct (raised_shape w Hr) as (index & l0 & s & i & -> & Hb).
    destruct (before_failure_silent Hb) as (_ & _ & Hv & Hs & Hp).
    rewrite !shows_app, !plotted_app, !values_app, Hv, !Hs, Hp.
    repeat split; simpl; rewrite ?app_nil_r; reflexivity.
Qed.

(** X10.  Whatever the ticker does and the store answers, after any number
    of cycles on the window as it is built, [p1] is visible, [p7] is hidden
    and empty, and the Battery Energy spin box has never been given a
    value. *)
Theorem unused_widgets_never_change (acts : list Ticker.Action) w :
  let g := apply_cycles (Ticker.deliver acts w) (@initial_widgets V) in
  visible g p1 = true /\
  visible g p7 = false /\
  curves_on g p7 = [] /\
  spin_value g spinboxBatteryEnergy = None.
Proof.
  cbv zeta.
  enough (Hg : forall g,
             let g' := apply_cycles (Ticker.deliver acts w) g in
             visible g' p1 = visible g p1 /\
             visible g' p7 = visible g p7 /\
             curves_on g' p7 = curves_on g p7 /\
             spin_value g' spinboxBatteryEnergy
             = spin_value g spinboxBatteryEnergy)
    by exact (Hg initial_widgets).
  revert w. induction acts as [|[q|] acts IH]; intros w g.
  - repeat split.
  - apply IH.
  - cbv zeta. simpl.
    destruct (cycle_keeps w g) as (K1 & K2 & K3 & K4).
    unfold log_of in *.
    destruct (signalPlotRefresh w) as [[w' l] r]. simpl in *.
    destruct (IH w' (apply_events l g)) as (I1 & I2 & I3 & I4).
    unfold apply_cycles in *. simpl.
    rewrite I1, I2, I3, I4. repeat split; assumption.
Qed.

Lemma ticker_actions fuel self :
  fst (Ticker.run fuel self)
  = concat (repeat [Ticker.time_sleep 0.25;
                    Ticker.plotRefreshTimingSignal_emit] fuel).
Proof.
  induction fuel as [|fuel IH]; [reflexivity|].
  rewrite TickerFacts.run_unfold. simpl. now rewrite IH.
Qed.

Lemma plotted_p1_count w :
  length (plotted p1 (log_of (signalPlotRefresh w)))
  = if completed (log_of (signalPlotRefresh w),
                  result_of (signalPlotRefresh w)) then 1%nat else 0%nat.
Proof.
  unfold completed. simpl.
  destruct (result_of (signalPlotRefresh w)) as [[]|e] eqn:Hr.
  - destruct (completed_shape w Hr) as (index & sh & rows & a & Hlen & ->).
    rewrite cycle_log_plotted. reflexivity.
  - destruct (raised_shape w Hr) as (index & l0 & s & i & -> & Hb).
    destruct (before_failure_silent Hb) as (_ & _ & _ & _ & Hp).
    rewrite !plotted_app, Hp. reflexivity.
Qed.

(** X11.  [fuel] iterations of the ticker start [fuel] cycles, one after
    the other, and each cycle that completes leaves one more curve on [p1]:
    no curve is ever removed, a cycle that raises adds none. *)
Theorem curves_on_p1_accumulate fuel self w g :
  let cycles := run_cycles fuel w in
  Ticker.deliver (fst (Ticker.run fuel self)) w = map fst cycles /\
  length (curves_on (apply_cycles (map fst cycles) g) p1)
  = (length (curves_on g p1) + length (filter completed cycles))%nat.
Proof.
  cbv zeta. rewrite ticker_actions. clear self.
  revert w g. induction fuel as [|fuel IH]; intros w g.
  - split; [reflexivity|]. simpl. lia.
  - simpl.
    pose proof (plotted_p1_count w) as Hc.
    unfold log_of, result_of in Hc.
    destruct (signalPlotRefresh w) as [[w' l] r]. simpl in Hc.
    destruct (IH w' (apply_events l g)) as [Hd Hl].
    split; [simpl; now rewrite Hd|].
    unfold apply_cycles in *. simpl.
    rewrite Hl, curves_on_after, length_app, Hc.
    destruct (completed (l, r)); simpl; lia.
Qed.

End Properties.

(** *** The properties at work *)

Import SpecWindow.

Lemma completed_cycle_reads_witness :
  let l := log_of (signalPlotRefresh five_records_world) in
  exists index,
    hd_error l = Some (Call_get_simulation_index (V := Z) index) /\
    reads l = schedule index /\
    Z.of_nat (length (reads l)) = 6 + 6 * Z.max 0 (index - 1).
Proof.
  apply (@completed_cycle_reads Z (World Z) _ five_records_world).
  reflexivity.
Defined.

Lemma failed_cycle_draws_nothing_witness :
  let l := log_of (signalPlotRefresh new_run_world) in
  (exists l0 s i,
      l = l0 ++ [Call_get_at_index s i (Raise OutOfRangeError)]) /\
  queries l = [] /\
  plotted p1 l = [] /\
  visible (apply_events l initial_widgets) p1 = true /\
  curves_on (apply_events l initial_widgets) p1 = [].
Proof.
  apply (@failed_cycle_draws_nothing Z (World Z) _ new_run_world
           OutOfRangeError initial_widgets p1).
  reflexivity.
Defined.

Lemma spin_boxes_are_given_first_reads_witness :
  let l := log_of (signalPlotRefresh five_records_world) in
  exists v, values spinboxTime l = [v] /\ hd_error (returned time l) = Some v.
Proof.
  apply (@spin_boxes_are_given_first_reads Z (World Z) _ five_records_world
           spinboxTime).
  reflexivity.
Defined.

Lemma plots_have_matching_lengths_witness :
  length [1; 2; 3] = length [1; 2; 3].
Proof.
  apply (@plots_have_matching_lengths Z (World Z) _ five_records_world p1
           [1; 2; 3] [1; 2; 3]).
  - reflexivity.
  - discriminate.
  - vm_compute. left. reflexivity.
Defined.

Lemma plots_show_what_the_store_returned_witness :
  let l := log_of (signalPlotRefresh five_records_world) in
  [1; 2; 3] = skipn 1 (returned time l) /\
  exists index,
    hd_error l = Some (Call_get_simulation_index index) /\
    [1; 2; 3] = positions index.
Proof.
  apply (@plots_show_what_the_store_returned Z (World Z) _
           five_records_world p1 time [1; 2; 3] [1; 2; 3]).
  - reflexivity.
  - reflexivity.
  - vm_compute. left. reflexivity.
Defined.

Lemma velocity_plot_has_two_curves_witness :
  let l := log_of (signalPlotRefresh five_records_world) in
  exists index,
    hd_error l = Some (Call_get_simulation_index index) /\
    plotted p3 l = [(positions index, returned track_max_velocity l);
                    (positions index, skipn 1 (returned velocity l))].
Proof.
  apply (@velocity_plot_has_two_curves Z (World Z) _ five_records_world).
  vm_compute. right. left. reflexivity.
Defined.

Lemma visibility_follows_check_boxes_witness :
  visible (apply_events (log_of (signalPlotRefresh five_records_world))
                        initial_widgets) p2 = true.
Proof.
  apply (@visibility_follows_check_boxes Z (World Z) _ five_records_world
           initial_widgets p2 checkboxDistance true).
  - reflexivity.
  - vm_compute. left. reflexivity.
Defined.

End CycleProperties.

(** ** The logging set-up *)

Module LoggingFacts.
Import Logging.

Lemma written_app lv n hs hs' :
  written (mkLogger n (hs ++ hs')) lv
  = written (mkLogger n hs) lv ++ written (mkLogger n hs') lv.
Proof.
  unfold written. simpl. destruct (levelno lv <? n); [reflexivity|].
  apply flat_map_app.
Qed.

Lemma configure_logging_handlers root :
  configure_logging root
  = mkLogger (levelno DEBUG)
      (handlers root ++ handlers (configure_logging (mkLogger 0 []))).
Proof.
  unfold configure_logging, addHandler, setLevel. simpl.
  now rewrite <- app_assoc.
Qed.

(** X12.  After [configure_logging()] a record of any level passes the
    root logger; besides what the handlers already there do with it, it is
    written to the console, and to [example.log] too exactly if its level is
    [WARNING] or above.  So what is in the file is also on the console, and
    [INFO] records, as the window and the ticker log them, are on the
    console only. *)
Theorem configure_logging_routes (root : Logger) (lv : Level) :
  written (configure_logging root) lv
  = written (mkLogger (levelno DEBUG) (handlers root)) lv
    ++ (if levelno lv <? levelno WARNING then [console]
        else [console; file "example.log"]).
Proof.
  rewrite configure_logging_handlers, written_app. f_equal.
  destruct lv; reflexivity.
Qed.

Lemma written_repeats (n : nat) (lv : Level) :
  let root := Nat.iter n configure_logging new_root in
  length (handlers root) = (2 * n)%nat /\
  written root lv
  = concat (repeat (if levelno lv <? levelno WARNING then [console]
                    else [console; file "example.log"]) n).
Proof.
  cbv zeta. induction n as [|n [IHl IHw]].
  - split; [reflexivity|]. destruct lv; reflexivity.
  - change (Nat.iter (S n) configure_logging new_root)
      with (configure_logging (Nat.iter n configure_logging new_root)).
    cbn [repeat concat].
    set (root := Nat.iter n configure_logging new_root) in *.
    split.
    + rewrite configure_logging_handlers. cbn [handlers].
      rewrite length_app, IHl. simpl. lia.
    + rewrite configure_logging_handlers, written_app.
      assert (Hw : written (mkLogger (levelno DEBUG) (handlers root)) lv
                   = written root lv).
      { destruct n as [|n].
        - destruct lv; reflexivity.
        - unfold root.
          change (Nat.iter (S n) configure_logging new_root)
            with (configure_logging (Nat.iter n configure_logging new_root)).
          rewrite configure_logging_handlers. reflexivity. }
      rewrite Hw, IHw.
      replace (written
                 (mkLogger (levelno DEBUG)
                    (handlers (configure_logging (mkLogger 0 [])))) lv)
        with (if levelno lv <? levelno WARNING then [console]
              else [console; file "example.log"])
        by (destruct lv; reflexivity).
      clear. induction n as [|n IH]; simpl.
      * now rewrite app_nil_r.
      * rewrite <- app_assoc. f_equal. exact IH.
Qed.

(** X13.  [configure_logging()] is not idempotent.  On the root logger of a
    new process, before any call, a record is written once to the console
    if its level is [WARNING] or above (by [lastResort]) and not at all
    below; after [n >= 1] calls the logger has [n] console handlers and [n]
    file handlers, and every record is written [n] times to each stream it
    goes to: [n] times to the console, and [n] times to [example.log] too
    from [WARNING] up. *)
Theorem configure_logging_repeats (n : nat) (lv : Level) :
  let root := Nat.iter n configure_logging new_root in
  length (handlers root) = (2 * n)%nat /\
  logged root lv
  = match n with
    | O => if levelno lv <? levelno WARNING then [] else [console]
    | S _ => concat (repeat (if levelno lv <? levelno WARNING then [console]
                             else [console; file "example.log"]) n)
    end.
Proof.
  cbv zeta. destruct (written_repeats n lv) as [Hl Hw].
  split; [exact Hl|].
  destruct n as [|n]; [destruct lv; reflexivity|].
  rewrite <- Hw.
  change (Nat.iter (S n) configure_logging new_root)
    with (configure_logging (Nat.iter n configure_logging new_root)) in *.
  rewrite configure_logging_handlers in *.
  unfold logged. cbn [logger_level handlers].
  replace (levelno lv <? levelno DEBUG) with false
    by (destruct lv; reflexivity).
  destruct (handlers (Nat.iter n configure_logging new_root) ++ _) eqn:E;
    [|reflexivity].
  apply (f_equal (@length _)) in E. rewrite length_app in E.
  simpl in E. lia.
Qed.

Example info_goes_to_the_console_only :
  written (configure_logging new_root) INFO = [console] /\
  written (configure_logging new_root) WARNING
  = [console; file "example.log"] /\
  written new_root INFO = [].
Proof. repeat split. Qed.

Example logged_before_and_after :
  logged new_root INFO = [] /\
  logged new_root WARNING = [console] /\
  logged (configure_logging new_root) INFO = [console] /\
  logged (configure_logging (configure_logging new_root)) ERROR
  = [console; file "example.log"; console; file "example.log"].
Proof. repeat split. Qed.

End LoggingFacts.

(** ** A cycle beside a running worker *)

Module ConcurrentFacts.
Import Window WindowFacts Cycle.

(** *** Any world whose reads below the index give fixed values *)

Section Snapshot.

Context {V W : Type} `{Self V W}.
Variable I0 I : W -> Prop.
Variable read_spec : Series -> Z -> result V -> Prop.
Variable index : Z.
Variable value : Series -> Z -> V.

Hypothesis first_ok : forall w,
  I0 w -> I (fst (data_store_get_simulation_index w)) /\
          snd (data_store_get_simulation_index w) = index.
Hypothesis read_ok : forall s i w,
  I w -> I (fst (data_store_get_at_index s i w)) /\
         read_spec s i (snd (data_store_get_at_index s i w)).
Hypothesis checked_ok : forall c w,
  I w -> I (fst (checkbox_isChecked c w)).
Hypothesis index_positive : 1 <= index.
Hypothesis inside_reads : forall s i r,
  0 <= i <= index - 1 -> read_spec s i r -> r = Ok (value s i).

Local Abbreviation inside := (fun i : Z => 0 <= i <= index - 1).
Local Abbreviation drawn := (fun (l : list (Event V)) (r : result unit) =>
  r = Ok tt /\
  plotted p1 l = [(positions index, map (value time) (positions index))]).

Lemma post_first B (k : Z -> M V W B) (Q : _ -> _ -> Prop) :
  post I (k index) (fun l res => Q (Call_get_simulation_index index :: l) res)
  -> post I0 (bind get_simulation_index k) Q.
Proof.
  intros Hk w Hw. unfold bind, get_simulation_index.
  destruct (first_ok Hw) as [Hi Hr].
  destruct (data_store_get_simulation_index w) as [w' r]; open_run.
  subst r. specialize (Hk w' Hi).
  destruct (k index w') as [[w2 l2] res]; open_run. exact Hk.
Qed.

Lemma reads_inside_plotted (l : list (Event V)) :
  Forall (Concurrent.reads_inside index) l -> plotted p1 l = [].
Proof.
  induction 1 as [|e l He _ IH]; [reflexivity|].
  destruct e; simpl in *; auto. contradiction.
Qed.

Lemma drawn_frame (l l' : list (Event V)) r :
  Forall (Concurrent.reads_inside index) l -> drawn l' r -> drawn (l ++ l') r.
Proof.
  intros Hl [Hr Hp]. split; [exact Hr|].
  now rewrite plotted_app, (reads_inside_plotted Hl).
Qed.

Ltac safe_step :=
  lazymatch goal with
  | |- hoare _ (bind _ _) _ _ _ =>
      apply hoare_bind with (R := fun _ => True); [|intros ? _]
  | |- hoare _ (get_at_index ?s ?i) _ _ _ =>
      apply hoare_read with (read_spec := read_spec);
      [ exact read_ok
      | let r := fresh "r" in
        let Hr := fresh "Hr" in
        let Hv := fresh "Hv" in
        intros r Hr;
        assert (Hv : r = Ok (value s i))
          by (apply inside_reads; [lia|exact Hr]);
        rewrite Hv;
        split; simpl; first [exact Logic.I | lia | reflexivity] ]
  | |- hoare _ (isChecked _) _ _ _ =>
      apply hoare_checked; [exact checked_ok|intros ?; split; side]
  | |- hoare _ (emit _) _ _ _ => apply hoare_emit; side
  | |- hoare _ (if _ then _ else _) _ _ _ => apply hoare_if
  | |- hoare _ (ret _) _ _ _ => apply hoare_ret
  end.

Lemma for_z_in_values x (ls : Lists V) :
  Forall inside x ->
  hoare I (for_z_in x ls) (Concurrent.reads_inside index)
        (fun ls' => _time ls' = _time ls ++ map (value time) x)
        (fun _ => False).
Proof.
  intros Hx.
  apply hoare_weaken
    with (R := fun ls' => Forall inside [] /\
                          _time ls' ++ map (value time) []
                          = _time ls ++ map (value time) x).
  2: { intros ls' [_ E]. simpl in E. now rewrite app_nil_r in E. }
  apply (hoare_for_z_in
           (fun rest ls' => Forall inside rest /\
                            _time ls' ++ map (value time) rest
                            = _time ls ++ map (value time) x));
    [|split; [exact Hx|reflexivity]].
  intros z rest ls1 [Hz E]. inversion Hz as [|? ? Hz1 Hz2]; subst.
  slot_unfold.
  apply hoare_bind with (R := fun t => t = value time z).
  { safe_step. }
  intros t ->. repeat safe_step.
  split; [exact Hz2|]. simpl.
  rewrite <- E, <- app_assoc. reflexivity.
Qed.

(** The cycle completes and draws on [p1] the fixed values at the positions
    [1 .. index - 1]. *)
Lemma snapshot_cycle : post I0 signalPlotRefresh drawn.
Proof.
  unfold signalPlotRefresh at 1. apply post_first.
  fold (positions index).
  match goal with
  | |- post _ ?c _ => enough (Hq : post I c drawn)
  end.
  { intros w Hw. destruct (Hq w Hw) as [Hr Hp]. split; assumption. }
  slot_unfold.
  repeat
    lazymatch goal with
    | |- post _ (bind (for_z_in _ _) _) _ => fail
    | |- post _ (bind _ _) _ =>
        apply post_frame
          with (P := Concurrent.reads_inside index) (R := fun _ => True)
               (E := fun _ => False);
        [ repeat safe_step
        | intros ? ? ? ? ?; apply drawn_frame; assumption
        | intros ? ? _ []
        | intros ? _ ]
    end.
  apply post_frame
    with (P := Concurrent.reads_inside index)
         (R := fun ls => _time ls = map (value time) (positions index))
         (E := fun _ => False);
    [ apply (@for_z_in_values (positions index) empty_lists)
    | intros ? ? ? ? ?; apply drawn_frame; assumption
    | intros ? ? _ []
    | intros ls Hls ].
  { apply Forall_forall. intros z Hz. apply range_bound in Hz. lia. }
  apply post_emit. rewrite Hls.
  match goal with
  | |- post _ ?c _ =>
      assert (Ht : hoare I c SpecWindow.outer (fun _ => True)
                         (fun _ => False))
        by repeat safe_step
  end.
  eapply hoare_post; [exact Ht|].
  intros l r Hl Hr.
  destruct (SpecWindowFacts.outer_reads Hl) as [_ Hp].
  destruct r as [[]|e]; [|destruct Hr].
  split; [reflexivity|]. simpl. now rewrite Hp.
Qed.

End Snapshot.

(** *** The store of the specification, with the worker running *)

Import Store StoreFacts Concurrent.

Lemma advance_keeps V (w : Concurrent.World V) :
  Concurrent.recs (Concurrent.advance w) = Concurrent.recs w /\
  Concurrent.checked (Concurrent.advance w) = Concurrent.checked w /\
  (Concurrent.seen w <= Concurrent.seen (Concurrent.advance w))%nat.
Proof.
  unfold Concurrent.advance. destruct (Concurrent.pace w); simpl;
    repeat split; lia.
Qed.

Lemma column_values V (st : DataStore V) (value : Series -> Z -> V) s x :
  Forall (fun z => read_field z s st = Ok (value s z)) x ->
  SpecWindow.column st s x = map (value s) x.
Proof.
  induction 1 as [|z x Hz _ IH]; [reflexivity|].
  unfold SpecWindow.column in *. simpl. now rewrite Hz, IH.
Qed.

(** X14.  A cycle that runs while the worker goes on appending records:
    if the index it takes from the store is at least 1, it completes, and
    what it draws on [p1] is the time column as it was when the index was
    taken, at the positions [1 .. index - 1], however many calls the worker
    makes between the reads of the cycle. *)
Theorem refresh_draws_a_snapshot
  (V : Type) (recs : list (Series -> V)) (k : nat) (pace : list nat)
  (boxes : Checkbox -> bool) :
  let w := Concurrent.mkWorld recs k pace boxes in
  let st := Concurrent.store_now (Concurrent.advance w) in
  let index := current_index st in
  1 <= index ->
  result_of (signalPlotRefresh w) = Ok tt /\
  plotted p1 (log_of (signalPlotRefresh w))
  = [(positions index, SpecWindow.column st time (positions index))].
Proof.
  cbv zeta. intros Hpos.
  set (w := Concurrent.mkWorld recs k pace boxes) in *.
  set (k1 := Concurrent.seen (Concurrent.advance w)).
  assert (Hst : Concurrent.store_now (Concurrent.advance w)
                = observed recs k1).
  { unfold Concurrent.store_now, k1.
    now rewrite (proj1 (advance_keeps w)). }
  rewrite Hst in *.
  set (index := current_index (observed recs k1)) in *.
  destruct (@worker_reads V recs k1 0 time) as (r0 & _ & _);
    [unfold index, current_index in Hpos; lia|].
  set (value := fun (s : Series) (i : Z) =>
                  match nth_error recs (Z.to_nat i) with
                  | Some r => r s
                  | None => r0 s
                  end).
  assert (Hin : forall s i k',
             0 <= i <= index - 1 -> (k1 <= k')%nat ->
             read_field i s (observed recs k') = Ok (value s i)).
  { intros s i k' Hi Hk.
    destruct (@worker_reads V recs k' i s) as (r & Hr & E).
    { pose proof (observed_index_le recs Hk).
      unfold index, current_index in Hi. lia. }
    unfold value. now rewrite Hr. }
  pose proof
    (@snapshot_cycle V (Concurrent.World V) _
       (eq w)
       (fun w' => Concurrent.recs w' = recs /\
                  (k1 <= Concurrent.seen w')%nat)
       (fun s i r => exists k', (k1 <= k')%nat /\
                                r = read_field i s (observed recs k'))
       index value) as Hs.
  destruct Hs with (w := w) as [Hr Hp]; try reflexivity.
  - intros w' <-. split; [split; [apply advance_keeps|apply Nat.le_refl]|].
    simpl. now rewrite Hst.
  - intros s i w' [Hrecs Hseen].
    destruct (advance_keeps w') as (Ha & _ & Hb). simpl.
    split; [split; [congruence|lia]|].
    exists (Concurrent.seen (Concurrent.advance w')).
    split; [lia|]. unfold Concurrent.store_now. now rewrite Ha, Hrecs.
  - intros c w' HI. exact HI.
  - exact Hpos.
  - intros s i r Hi (k' & Hk & ->). apply Hin; assumption.
  - split; [exact Hr|]. rewrite Hp. do 2 f_equal.
    symmetry. apply column_values.
    apply Forall_forall. intros z Hz. apply range_bound in Hz.
    apply Hin; [lia|apply Nat.le_refl].
Qed.

Lemma refresh_draws_a_snapshot_witness :
  result_of (signalPlotRefresh Concurrent.busy_world) = Ok tt /\
  plotted p1 (log_of (signalPlotRefresh Concurrent.busy_world))
  = [(positions 5,
      SpecWindow.column
        (Concurrent.store_now (Concurrent.advance Concurrent.busy_world))
        time (positions 5))].
Proof.
  apply (@refresh_draws_a_snapshot Z
           (SpecWindow.scenario_records (fun _ _ => 0) 10) 58
           [3; 0; 7; 1; 1; 9; 2; 0; 4; 5; 1; 1; 8; 3]%nat (fun _ => true)).
  vm_compute. discriminate.
Defined.

Example busy_cycle :
  let o := signalPlotRefresh Concurrent.busy_world in
  hd_error (log_of o) = Some (Call_get_simulation_index 5) /\
  plotted p1 (log_of o) = [([1; 2; 3; 4], [1; 2; 3; 4])] /\
  current_index (Concurrent.store_now (world_of o)) = 9.
Proof. vm_compute. repeat split. Qed.

End ConcurrentFacts.
